(** * Fixture-to-test-source compiler and result analyzer

    A shallow embedding of the three scripts

      - [scripts/generate_tests.py]       (multi-source generator)
      - [scripts/generate_spec_tests.py]  (single-source generator)
      - [scripts/analyze_test_results.py] (result analyzer)

    Python [str] values are sequences of Unicode code points; a code point is
    an [N].  The Unicode character tables behind [str.isalnum], [str.isdigit]
    and the regular-expression class [\s] are not part of the scripts: they
    are a parameter ([unicode_tables]) of which only the ASCII range is
    fixed ([ascii_faithful]). *)

From Stdlib Require Import NArith ZArith QArith Lia Ascii String DecimalString DecimalNat.
From stdpp Require Import base option list gmap.

Open Scope N_scope.

(** ** Python strings *)

Module PyStr.

Definition pystr : Type := list N.

(** A string literal of the source, as its code points. *)
Definition str (s : string) : pystr := map N_of_ascii (list_ascii_of_string s).

(** [s.startswith(old)]. *)
Fixpoint starts_with (old s : pystr) : bool :=
  match old, s with
  | [], _ => true
  | _ :: _, [] => false
  | a :: old', b :: s' => (a =? b) && starts_with old' s'
  end.

(** [sub in s]. *)
Fixpoint contains (sub s : pystr) : bool :=
  starts_with sub s ||
  match s with
  | [] => false
  | _ :: s' => contains sub s'
  end.

(** The left-to-right scan of [s.replace(old, new)] for a non-empty [old]:
    [skip] counts the characters of the current occurrence of [old] still to
    be dropped, so occurrences never overlap. *)
Fixpoint replace_from (old new : pystr) (skip : nat) (s : pystr) : pystr :=
  match s with
  | [] => []
  | c :: s' =>
      match skip with
      | S k => replace_from old new k s'
      | O =>
          if starts_with old s
          then new ++ replace_from old new (length old - 1) s'
          else c :: replace_from old new 0 s'
      end
  end.

(** [s.replace(old, new)]; an empty [old] matches between all characters. *)
Definition replace (old new s : pystr) : pystr :=
  match old with
  | [] => new ++ flat_map (fun c => c :: new) s
  | _ :: _ => replace_from old new 0 s
  end.

(** [sep.join(parts)]. *)
Fixpoint join (sep : pystr) (parts : list pystr) : pystr :=
  match parts with
  | [] => []
  | [p] => p
  | p :: ps => p ++ sep ++ join sep ps
  end.

(** [s * n]. *)
Fixpoint repeat_str (s : pystr) (n : nat) : pystr :=
  match n with
  | O => []
  | S k => s ++ repeat_str s k
  end.

(** [str(n)] for a non-negative [int]: its decimal digits. *)
Definition str_of_nat (n : nat) : pystr :=
  str (NilZero.string_of_uint (Nat.to_uint n)).

(** The scan of [s.split(sep)] for a non-empty [sep]: [cur] is the piece
    being read, in reverse, and [skip] is as in [replace_from]. *)
Fixpoint split_from (sep : pystr) (skip : nat) (cur : pystr) (s : pystr)
    : list pystr :=
  match s with
  | [] => [rev cur]
  | c :: s' =>
      match skip with
      | S k => split_from sep k cur s'
      | O =>
          if starts_with sep s
          then rev cur :: split_from sep (length sep - 1) [] s'
          else split_from sep 0 (c :: cur) s'
      end
  end.

Definition split (sep : pystr) (s : pystr) : list pystr := split_from sep 0 [] s.

(** [s.endswith(suffix)]. *)
Definition ends_with (suffix s : pystr) : bool :=
  starts_with (rev suffix) (rev s).

End PyStr.
Export PyStr.

(** ** Unicode character tables *)

Record unicode_tables : Type := {
  isalnum : N -> bool;   (* c.isalnum() *)
  isdigit : N -> bool;   (* c.isdigit() *)
  isspace : N -> bool    (* the class \s of a str pattern *)
}.

Definition in_range (lo hi c : N) : bool := (lo <=? c) && (c <=? hi).

Definition ascii_isdigit (c : N) : bool := in_range 48 57 c.

Definition ascii_isalnum (c : N) : bool :=
  in_range 48 57 c || in_range 65 90 c || in_range 97 122 c.

(** Whitespace below 128: TAB..CR, FS..US and the space. *)
Definition ascii_isspace (c : N) : bool :=
  in_range 9 13 c || in_range 28 32 c.

Definition ascii_tables : unicode_tables :=
  {| isalnum := ascii_isalnum; isdigit := ascii_isdigit; isspace := ascii_isspace |}.

(** What Python fixes about the tables on the ASCII range. *)
Definition ascii_faithful (U : unicode_tables) : Prop :=
  forall c, c < 128 ->
    isalnum U c = ascii_isalnum c /\
    isdigit U c = ascii_isdigit c /\
    isspace U c = ascii_isspace c.

Definition underscore : N := 95.

(** ** The identifier sanitizer shared by both generators *)

Module Sanitizer.

(** ["".join(c if c.isalnum() or c == "_" else "_" for c in s)]. *)
Definition keep_alnum (U : unicode_tables) (s : pystr) : pystr :=
  map (fun c => if isalnum U c || (c =? underscore) then c else underscore) s.

(** [while "__" in s: s = s.replace("__", "_")]; every round shortens [s],
    so [length s] rounds are enough ([collapse_loop_done]). *)
Fixpoint collapse_loop (fuel : nat) (s : pystr) : pystr :=
  match fuel with
  | O => s
  | S fuel' =>
      if contains (str "__") s
      then collapse_loop fuel' (replace (str "__") (str "_") s)
      else s
  end.

(** [if s and s[0].isdigit(): s = "test_" + s]. *)
Definition prefix_digit (U : unicode_tables) (s : pystr) : pystr :=
  match s with
  | c :: _ => if isdigit U c then str "test_" ++ s else s
  | [] => s
  end.

End Sanitizer.
Export Sanitizer.

(** ** Paths ([pathlib.PurePosixPath]) *)

Module Pathlib.

(** A path is its [parts]: an absolute path starts with the part ["/"]. *)
Definition path : Type := list pystr.

Definition slash : N := 47.
Definition dot : N := 46.

Definition is_absolute (p : path) : bool :=
  match p with
  | seg :: _ => starts_with [slash] seg
  | [] => false
  end.

(** [a / b]: an absolute right operand replaces the left one. *)
Definition joinpath (a b : path) : path :=
  if is_absolute b then b else a ++ b.

(** [p.parent]. *)
Definition parent (p : path) : path :=
  match p with
  | [seg] => if is_absolute p then p else []
  | _ => removelast p
  end.

(** [p.name]: the last part, unless it is the root. *)
Definition name (p : path) : pystr :=
  match p with
  | [seg] => if is_absolute p then [] else seg
  | _ => List.last p []
  end.

Fixpoint is_prefix_of (other p : path) : bool :=
  match other, p with
  | [], _ => true
  | _ :: _, [] => false
  | a :: other', b :: p' => bool_decide (a = b) && is_prefix_of other' p'
  end.

(** [p.relative_to(other)]; [None] is the [ValueError] of a [p] that is
    not below [other]. *)
Definition relative_to (p other : path) : option path :=
  match other with
  | [] => if is_absolute p then None else Some p
  | _ :: _ => if is_prefix_of other p then Some (drop (length other) p) else None
  end.

(** [name.rfind(".")], counted from the left. *)
Fixpoint rfind (c : N) (s : pystr) : option nat :=
  match s with
  | [] => None
  | d :: s' =>
      match rfind c s' with
      | Some i => Some (S i)
      | None => if d =? c then Some O else None
      end
  end.

(** [PurePath.suffix] of a file name. *)
Definition suffix (nm : pystr) : pystr :=
  match rfind dot nm with
  | Some i =>
      if bool_decide (0 < i)%nat && bool_decide (i < length nm - 1)%nat
      then drop i nm else []
  | None => []
  end.

(** [p.with_suffix(sfx)] for a well-formed [sfx]; [None] is the
    [ValueError] of a path with an empty name. *)
Definition with_suffix (p : path) (sfx : pystr) : option path :=
  match name p with
  | [] => None
  | nm =>
      let old_suffix := suffix nm in
      let nm' :=
        match old_suffix with
        | [] => nm ++ sfx
        | _ :: _ => take (length nm - length old_suffix) nm ++ sfx
        end in
      Some (removelast p ++ [nm'])
  end.

(** [PurePosixPath(s).parts]: empty and ["."] components vanish; exactly
    two leading slashes are kept as the root ["//"]. *)
Definition parse (s : pystr) : path :=
  let segs := filter (fun seg => seg <> [] /\ seg <> [dot]) (split [slash] s) in
  match s with
  | a :: b :: c :: _ =>
      if (a =? slash) && (b =? slash) && negb (c =? slash)
      then [slash; slash] :: segs
      else if a =? slash then [slash] :: segs else segs
  | [a; b] =>
      if (a =? slash) && (b =? slash) then [[slash; slash]]
      else if a =? slash then [slash] :: segs else segs
  | a :: _ => if a =? slash then [slash] :: segs else segs
  | [] => segs
  end.

(** [str(p)]. *)
Definition to_str (p : path) : pystr :=
  match p with
  | [] => [dot]
  | seg :: rest => if is_absolute p then seg ++ join [slash] rest else join [slash] p
  end.


End Pathlib.
Export Pathlib.

(** ** Exceptions *)

Inductive exn : Type :=
| OSError              (* IOError and its subclasses *)
| JSONDecodeError
| UnicodeDecodeError
| RecursionError
| ValueError.

Inductive result (A : Type) : Type :=
| Ok (a : A)
| Raised (e : exn).
Arguments Ok {A} a.
Arguments Raised {A} e.

(** ** Generated test files *)

(** One emitted [test "..." { ... }] block: the identifier, the path the
    harness re-opens, and the verbatim key it looks up. *)
Record test_unit : Type := {
  unit_name : pystr;
  unit_json_path : pystr;
  unit_test_name : pystr
}.

(** A generated file: the preamble's [@import] string and the blocks, in
    order; the remaining lines of the text are fixed. *)
Record zig_file : Type := {
  root_import : pystr;
  units : list test_unit
}.

(** What [json.load] returns, as far as the generators look at it. *)
Inductive pyvalue : Type :=
| PyDict (keys : list pystr)    (* a mapping; its keys in iteration order *)
| PyList
| PyScalar.

(** ** The file system and the effects of the scripts *)

Module FS.

Inductive node : Type :=
| File
| Dir
| Link (target : path).

Inductive message : Type :=
| WarnCouldNotParse (p : path) (e : exn)
| WarnNoTestObject (p : path)
| WarnDirNotFound (p : path)
| WarnNoGeneralStateTests (dir archive : path)
| WarnNoBlockchainFixtures
| MsgLinked (legacy : path)
| MsgCopied (legacy : path)
| MsgExtracted (tar : path)
| MsgExtracting (tar dir : path).

Inductive event : Type :=
| ERmtree (p : path)
| EMkdir (p : path)
| ESymlink (src dst : path)
| ECopytree (src dst : path)
| EExtract (tar dest : path)
| ERename (src dst : path)
| EWrite (p : path) (f : zig_file)
| EStderr (m : message)
| EStdout (m : message).

(** The existing paths with their kinds, and what has been done so far. *)
Record state : Type := {
  files : gmap path node;
  events : list event
}.

(** What the scripts cannot see in advance: the outcome of reading and
    parsing a file, whether the platform can make symbolic links, and the
    members of an archive ([None]: not a readable archive). *)
Record world : Type := {
  load : path -> result pyvalue;
  symlink_supported : bool;
  archive : path -> option (list (path * node))
}.

Definition M (A : Type) : Type := state -> result A * state.

Definition ret {A} (a : A) : M A := fun s => (Ok a, s).
Definition raise {A} (e : exn) : M A := fun s => (Raised e, s).
Definition bind {A B} (m : M A) (k : A -> M B) : M B :=
  fun s => match m s with
           | (Ok a, s') => k a s'
           | (Raised e, s') => (Raised e, s')
           end.

(** [try: m  except ...: h e]; [h e = None] when no clause matches [e]. *)
Definition try_except {A} (m : M A) (h : exn -> option (M A)) : M A :=
  fun s => match m s with
           | (Ok a, s') => (Ok a, s')
           | (Raised e, s') =>
               match h e with
               | Some handler => handler s'
               | None => (Raised e, s')
               end
           end.

Definition get_files : M (gmap path node) := fun s => (Ok (files s), s).
Definition set_files (m : gmap path node) : M unit :=
  fun s => (Ok tt, {| files := m; events := events s |}).
Definition emit (e : event) : M unit :=
  fun s => (Ok tt, {| files := files s; events := events s ++ [e] |}).
Definition of_option {A} (e : exn) (o : option A) : M A :=
  match o with Some a => ret a | None => raise e end.

End FS.
Export FS.

Declare Scope fs_scope.
Notation "x ← y ; z" := (FS.bind y (fun x => z))
  (at level 20, y at level 100, z at level 200, only parsing) : fs_scope.
Notation "' x ← y ; z" := (FS.bind y (fun x => z))
  (at level 20, x pattern, y at level 100, z at level 200, only parsing) : fs_scope.
Notation "x ;; z" := (FS.bind x (fun _ => z))
  (at level 100, z at level 200, only parsing, right associativity) : fs_scope.
Open Scope fs_scope.

Module FSOps.

(** A symbolic link is followed when it is the path itself. *)
Definition resolve (m : gmap path node) (p : path) : path :=
  match m !! p with
  | Some (Link t) => t
  | _ => p
  end.

(** [p.exists()]; the empty path is the current directory. *)
Definition exists_in (m : gmap path node) (p : path) : bool :=
  match p, m !! p with
  | [], _ => true
  | _, Some (Link t) => bool_decide (is_Some (m !! t))
  | _, Some _ => true
  | _, None => false
  end.

(** [q] lies strictly below [root]. *)
Definition below (root q : path) : bool :=
  is_prefix_of root q && bool_decide (length root < length q)%nat.

(** [fnmatch(name, "*.json")]. *)
Definition is_json_name (q : path) : bool :=
  ends_with (str ".json") (List.last q []).

(** [root.rglob("*.json")]: every entry below [root] whose name ends in
    [.json], whatever its kind. *)
Definition rglob_json (m : gmap path node) (root : path) : list path :=
  let r := resolve m root in
  map (fun q => root ++ drop (length r) q)
    (filter (fun q => below r q && is_json_name q = true)
       (map fst (map_to_list m))).

Definition any_json (m : gmap path node) (root : path) : bool :=
  match rglob_json m root with
  | [] => false
  | _ :: _ => true
  end.

Definition remove_tree (m : gmap path node) (p : path) : gmap path node :=
  filter (fun kv => is_prefix_of p kv.1 = false) m.

(** The non-empty prefixes [take 1 p], ..., [p]. *)
Definition prefixes (p : path) : list path :=
  map (fun k => take (S k) p) (seq 0 (length p)).

Definition add_dirs (m : gmap path node) (p : path) : gmap path node :=
  foldr (fun q acc => match acc !! q with
                      | None => <[q := Dir]> acc
                      | Some _ => acc
                      end) m (prefixes p).

Definition graft (m : gmap path node) (dst : path)
    (entries : list (path * node)) : gmap path node :=
  foldr (fun e acc => <[dst ++ e.1 := e.2]> acc) m entries.

(** The entries below [root], relative to it. *)
Definition subtree (m : gmap path node) (root : path) : list (path * node) :=
  map (fun kv => (drop (length root) kv.1, kv.2))
    (filter (fun kv => below root kv.1 = true) (map_to_list m)).

Definition exists_ (p : path) : M bool :=
  m ← get_files; ret (exists_in m p).

Definition has_json (p : path) : M bool :=
  m ← get_files; ret (any_json m p).

(** [shutil.rmtree(p)]: only a real directory can be removed. *)
Definition rmtree (p : path) : M unit :=
  m ← get_files;
  match m !! p with
  | Some Dir => emit (ERmtree p) ;; set_files (remove_tree m p)
  | _ => raise OSError
  end.

(** A regular file sits where a directory is needed. *)
Definition blocked (m : gmap path node) (p : path) : bool :=
  existsb (fun q => match m !! q with Some File => true | _ => false end)
    (prefixes p).

(** [p.mkdir(parents=True, exist_ok=True)]. *)
Definition mkdir_p (p : path) : M unit :=
  m ← get_files;
  if blocked m p
  then raise OSError
  else emit (EMkdir p) ;; set_files (add_dirs m p).

(** [os.symlink(src, dst, target_is_directory=True)]. *)
Definition symlink (W : world) (src dst : path) : M unit :=
  m ← get_files;
  match m !! dst with
  | None =>
      if symlink_supported W
      then emit (ESymlink src dst) ;; set_files (<[dst := Link src]> m)
      else raise OSError
  | Some _ => raise OSError
  end.

(** [shutil.copytree(src, dst)]: [dst] must not exist yet. *)
Definition copytree (src dst : path) : M unit :=
  m ← get_files;
  match m !! dst with
  | None =>
      emit (ECopytree src dst) ;;
      set_files (graft (<[dst := Dir]> m) dst (subtree m (resolve m src)))
  | Some _ => raise OSError
  end.

(** [tarfile.open(tar, "r:gz").extractall(dest)]. *)
Definition extractall (W : world) (tar dest : path) : M unit :=
  m ← get_files;
  match archive W tar with
  | Some entries => emit (EExtract tar dest) ;; set_files (graft m dest entries)
  | None => raise OSError
  end.

(** [src.rename(dst)] onto a free name. *)
Definition rename (src dst : path) : M unit :=
  m ← get_files;
  match m !! src, m !! dst with
  | Some n, None =>
      emit (ERename src dst) ;;
      set_files (graft (<[dst := n]> (remove_tree m src)) dst (subtree m src))
  | _, _ => raise OSError
  end.

(** [with open(p) as f: json.load(f)]. *)
Definition read_json (W : world) (p : path) : M pyvalue :=
  m ← get_files;
  match m !! resolve m p with
  | Some File =>
      match load W p with
      | Ok v => ret v
      | Raised e => raise e
      end
  | _ => raise OSError
  end.

(** [open(p, "w")] can create or truncate [p]. *)
Definition writable (m : gmap path node) (p : path) : bool :=
  match m !! p with
  | Some Dir | Some (Link _) => false
  | Some File | None => exists_in m (parent p)
  end.

(** [with open(p, "w") as f: f.write(...)]. *)
Definition write_file (p : path) (f : zig_file) : M unit :=
  m ← get_files;
  if writable m p
  then emit (EWrite p f) ;; set_files (<[p := File]> m)
  else raise OSError.

Definition eprint (msg : message) : M unit := emit (EStderr msg).
Definition print (msg : message) : M unit := emit (EStdout msg).

End FSOps.
Export FSOps.

(** ** What the two generators share *)

(** [p / "literal"]. *)
Notation "p // lit" := (joinpath p (parse (str lit)))
  (at level 40, left associativity).

Module Naming.

(** The collision handling of the unit loop:
[[
      if safe_test_name in used_names:
          used_names[safe_test_name] += 1
          unique_test_name = f"{safe_test_name}_{used_names[safe_test_name]}"
      else:
          used_names[safe_test_name] = 0
          unique_test_name = safe_test_name
]] *)
Definition unique_name (used_names : gmap pystr nat) (safe_test_name : pystr)
    : pystr * gmap pystr nat :=
  match used_names !! safe_test_name with
  | Some n =>
      (safe_test_name ++ str "_" ++ str_of_nat (S n),
       <[safe_test_name := S n]> used_names)
  | None => (safe_test_name, <[safe_test_name := O]> used_names)
  end.

(** [except (json.JSONDecodeError, IOError)]. *)
Definition load_handler_catches (e : exn) : bool :=
  match e with
  | OSError | JSONDecodeError => true
  | _ => false
  end.

(** The guarded read at the head of [generate_test_file]; [None] after the
    warning of the handler. *)
Definition load_or_warn (W : world) (json_path : path) : M (option pyvalue) :=
  try_except (data ← read_json W json_path; ret (Some data))
    (fun e => if load_handler_catches e
              then Some (eprint (WarnCouldNotParse json_path e) ;; ret None)
              else None).

(** ["../" * depth + "root.zig"]. *)
Definition root_import_of (depth : nat) : pystr :=
  repeat_str (str "../") depth ++ str "root.zig".

End Naming.
Export Naming.

(** ** [scripts/generate_tests.py] *)

Module GenerateTests.

(** [sanitize_test_name], the richer variant. *)
Definition sanitize_test_name (U : unicode_tables) (name : pystr) : pystr :=
  let sanitized :=
    replace (str " ") (str "_")
      (replace (str ".") (str "_") (replace (str "-") (str "_") name)) in
  let sanitized :=
    replace (str ")") (str "_")
      (replace (str "(") (str "_") (replace (str "::") (str "_") sanitized)) in
  let sanitized :=
    replace (str ",") (str "_")
      (replace (str "]") (str "_") (replace (str "[") (str "_") sanitized)) in
  let sanitized := keep_alnum U sanitized in
  let sanitized := collapse_loop (length sanitized) sanitized in
  prefix_digit U sanitized.

(** The loop [for test_name in data.keys()]. *)
Fixpoint emit_units (U : unicode_tables) (json_rel_path : pystr)
    (used_names : gmap pystr nat) (keys : list pystr) : list test_unit :=
  match keys with
  | [] => []
  | test_name :: rest =>
      let safe_test_name := sanitize_test_name U test_name in
      let '(unique_test_name, used_names') := unique_name used_names safe_test_name in
      {| unit_name := unique_test_name;
         unit_json_path := json_rel_path;
         unit_test_name := test_name |}
      :: emit_units U json_rel_path used_names' rest
  end.

Definition output_file_of (output_dir : path) (json_rel_path source_name : pystr)
    : path :=
  if bool_decide (source_name = str "ethereum_tests")
  then joinpath (output_dir // "ethereum_tests")
         (parse (replace (str ".json") (str ".zig") json_rel_path))
  else joinpath output_dir (parse (replace (str ".json") (str ".zig") json_rel_path)).

Definition generate_test_file (W : world) (U : unicode_tables)
    (json_path output_dir : path) (json_rel_path source_name : pystr) : M nat :=
  loaded ← load_or_warn W json_path;
  match loaded with
  | None => ret O
  | Some (PyDict keys) =>
      let output_file := output_file_of output_dir json_rel_path source_name in
      mkdir_p (parent output_file) ;;
      rel ← of_option ValueError (relative_to output_file output_dir);
      let depth := length rel in
      let zig_code :=
        {| root_import := root_import_of depth;
           units := emit_units U json_rel_path ∅ keys |} in
      write_file output_file zig_code ;;
      ret (length (units zig_code))
  | Some _ => eprint (WarnNoTestObject json_path) ;; ret O
  end.

(** The loop of [scan_test_directory]; both branches on [source_name]
    compute the same relative path. *)
Fixpoint scan_loop (repo_root : path) (found : list path)
    : M (list (path * pystr)) :=
  match found with
  | [] => ret []
  | json_file :: rest =>
      rel ← of_option ValueError (relative_to json_file repo_root);
      json_files ← scan_loop repo_root rest;
      ret ((json_file, to_str rel) :: json_files)
  end.

Definition scan_test_directory (base_path : path) (source_name : pystr)
    (repo_root : path) : M (list (path * pystr)) :=
  present ← exists_ base_path;
  if negb present
  then eprint (WarnDirNotFound base_path) ;; ret []
  else m ← get_files; scan_loop repo_root (rglob_json m base_path).

Definition ensure_general_state_tests (W : world) (repo_root : path) : M unit :=
  let fixtures_dir := repo_root // "ethereum-tests" // "GeneralStateTests" in
  present ← exists_ fixtures_dir;
  if present then ret tt
  else
    let archive_path :=
      repo_root // "ethereum-tests" // "fixtures_general_state_tests.tgz" in
    have_archive ← exists_ archive_path;
    if negb have_archive
    then eprint (WarnNoGeneralStateTests fixtures_dir archive_path)
    else print (MsgExtracting archive_path fixtures_dir) ;;
         extractall W archive_path (repo_root // "ethereum-tests").

(** The per-source loop of [main]: files and test cases generated. *)
Fixpoint generate_loop (W : world) (U : unicode_tables) (output_root : path)
    (source_name : pystr) (json_files : list (path * pystr)) : M (nat * nat) :=
  match json_files with
  | [] => ret (O, O)
  | (json_file, rel_path) :: rest =>
      test_count ← generate_test_file W U json_file output_root rel_path source_name;
      '(source_file_count, source_test_count) ←
        generate_loop W U output_root source_name rest;
      ret (if bool_decide (0 < test_count)%nat
            then (S source_file_count, (test_count + source_test_count)%nat)
            else (source_file_count, source_test_count))
  end.

Definition test_sources (repo_root : path) : list (pystr * path) :=
  [ (str "execution_specs",
     repo_root // "execution-specs" // "tests" // "eest" // "static" // "state_tests");
    (str "ethereum_tests",
     repo_root // "ethereum-tests" // "GeneralStateTests") ].

Fixpoint sources_loop (W : world) (U : unicode_tables) (repo_root output_root : path)
    (sources : list (pystr * path)) : M (nat * nat) :=
  match sources with
  | [] => ret (O, O)
  | (source_name, source_path) :: rest =>
      json_files ← scan_test_directory source_path source_name repo_root;
      '(files_here, tests_here) ←
        generate_loop W U output_root source_name json_files;
      '(total_files, total_tests) ← sources_loop W U repo_root output_root rest;
      ret ((files_here + total_files)%nat, (tests_here + total_tests)%nat)
  end.

(** [main]: the totals it reports (banners and progress lines left out). *)
Definition main (W : world) (U : unicode_tables) (repo_root : path) : M (nat * nat) :=
  ensure_general_state_tests W repo_root ;;
  let output_root := repo_root // "test" // "specs" // "generated" in
  present ← exists_ output_root;
  (if present then rmtree output_root else ret tt) ;;
  mkdir_p output_root ;;
  sources_loop W U repo_root output_root (test_sources repo_root).

End GenerateTests.

(** ** [scripts/generate_spec_tests.py] *)

Module GenerateSpecTests.

(** [sanitize_test_name], the simpler variant. *)
Definition sanitize_test_name (U : unicode_tables) (name : pystr) : pystr :=
  let sanitized :=
    replace (str " ") (str "_")
      (replace (str ".") (str "_") (replace (str "-") (str "_") name)) in
  let sanitized := keep_alnum U sanitized in
  prefix_digit U sanitized.

Definition ensure_blockchain_fixtures (W : world) (specs_root repo_root : path)
    : M unit :=
  present ← exists_ specs_root;
  populated ← has_json specs_root;
  if present && populated then ret tt
  else
    (if present then rmtree specs_root else ret tt) ;;
    mkdir_p (parent specs_root) ;;
    let legacy_root := repo_root // "ethereum-tests" // "BlockchainTests" in
    legacy_present ← exists_ legacy_root;
    legacy_populated ← has_json legacy_root;
    if legacy_present && legacy_populated
    then
      try_except
        (symlink W legacy_root specs_root ;; print (MsgLinked legacy_root))
        (fun e => match e with
                  | OSError =>
                      Some (copytree legacy_root specs_root ;;
                            print (MsgCopied legacy_root))
                  | _ => None
                  end)
    else
      let tar_path := repo_root // "ethereum-tests" // "fixtures_blockchain_tests.tgz" in
      have_tar ← exists_ tar_path;
      if have_tar
      then
        extractall W tar_path (parent specs_root) ;;
        let extracted_root := parent specs_root // "BlockchainTests" in
        extracted ← exists_ extracted_root;
        still_present ← exists_ specs_root;
        (if extracted && negb still_present
         then rename extracted_root specs_root else ret tt) ;;
        print (MsgExtracted tar_path)
      else print WarnNoBlockchainFixtures.

(** The loop [for test_name in data.keys()]; the harness-facing path is
    recomputed, and can fail, in every round. *)
Fixpoint emit_units (U : unicode_tables) (specs_root repo_root rel_path : path)
    (used_names : gmap pystr nat) (keys : list pystr) : M (list test_unit) :=
  match keys with
  | [] => ret []
  | test_name :: rest =>
      let safe_test_name := sanitize_test_name U test_name in
      let '(unique_test_name, used_names') := unique_name used_names safe_test_name in
      json_abs_path ←
        of_option ValueError (relative_to (joinpath specs_root rel_path) repo_root);
      us ← emit_units U specs_root repo_root rel_path used_names' rest;
      ret ({| unit_name := unique_test_name;
               unit_json_path := to_str json_abs_path;
               unit_test_name := test_name |} :: us)
  end.

Definition generate_test_file (W : world) (U : unicode_tables)
    (json_path output_dir specs_root repo_root : path) : M nat :=
  loaded ← load_or_warn W json_path;
  match loaded with
  | None => ret O
  | Some (PyDict keys) =>
      rel_path ← of_option ValueError (relative_to json_path specs_root);
      zig_rel ← of_option ValueError (with_suffix rel_path (str ".zig"));
      let output_file := joinpath output_dir zig_rel in
      mkdir_p (parent output_file) ;;
      rel ← of_option ValueError (relative_to output_file output_dir);
      let depth := length rel in
      us ← emit_units U specs_root repo_root rel_path ∅ keys;
      write_file output_file
        {| root_import := root_import_of depth; units := us |} ;;
      ret (length us)
  | Some _ => eprint (WarnNoTestObject json_path) ;; ret O
  end.

(** [[f for f in specs_root.rglob("*.json") if ".meta" not in f.parts]]. *)
Definition find_json_files (m : gmap path node) (specs_root : path) : list path :=
  filter (fun f => str ".meta" ∉ f) (rglob_json m specs_root).

(** The loop of [main] over the files found. *)
Fixpoint generate_loop (W : world) (U : unicode_tables)
    (output_root specs_root repo_root : path) (json_files : list path) : M nat :=
  match json_files with
  | [] => ret O
  | json_file :: rest =>
      test_count ← generate_test_file W U json_file output_root specs_root repo_root;
      total_tests ← generate_loop W U output_root specs_root repo_root rest;
      ret (test_count + total_tests)%nat
  end.

Inductive test_type : Type := State | Blockchain.

(** [main] once the command line has selected a valid test type: the
    total it reports (progress lines left out). *)
Definition main (W : world) (U : unicode_tables) (ty : test_type)
    (repo_root : path) : M nat :=
  let specs_root :=
    match ty with
    | State =>
        repo_root // "execution-specs" // "tests" // "eest" // "static" // "state_tests"
    | Blockchain =>
        repo_root // "execution-spec-tests" // "fixtures" // "blockchain_tests"
    end in
  let output_root :=
    match ty with
    | State => repo_root // "test" // "specs" // "generated_state"
    | Blockchain => repo_root // "test" // "specs" // "generated_blockchain"
    end in
  match ty with
  | State => ret tt
  | Blockchain => ensure_blockchain_fixtures W specs_root repo_root
  end ;;
  present ← exists_ output_root;
  (if present then rmtree output_root else ret tt) ;;
  mkdir_p output_root ;;
  m ← get_files;
  generate_loop W U output_root specs_root repo_root (find_json_files m specs_root).

End GenerateSpecTests.

(** ** [scripts/analyze_test_results.py] *)

Module AnalyzeTestResults.

(** How far the class [[^\s]+] can run from the start of [t]. *)
Fixpoint nonspace_run (U : unicode_tables) (t : pystr) : nat :=
  match t with
  | c :: t' => if isspace U c then O else S (nonspace_run U t')
  | [] => O
  end.

(** The tail [\.\.\.(?:OK|FAIL)] of the pattern at the start of [t]: the
    status token matched, [OK] being tried first. *)
Definition match_tail (t : pystr) : option pystr :=
  if starts_with (str "...") t
  then if starts_with (str "OK") (drop 3 t) then Some (str "OK")
       else if starts_with (str "FAIL") (drop 3 t) then Some (str "FAIL")
       else None
  else None.

(** The greedy group gives characters back one at a time: lengths [k],
    [k-1], ..., [1] are tried in this order. *)
Fixpoint backtrack (t : pystr) (k : nat) : option (pystr * pystr) :=
  match k with
  | O => None
  | S k' =>
      match match_tail (drop k t) with
      | Some status => Some (take k t, status)
      | None => backtrack t k'
      end
  end.

(** The pattern [test\.([^\s]+)\.\.\.(?:OK|FAIL)] at the start of [t]:
    [group(1)] and [group(0)]. *)
Definition match_here (U : unicode_tables) (t : pystr) : option (pystr * pystr) :=
  if starts_with (str "test.") t
  then
    let t1 := drop 5 t in
    match backtrack t1 (nonspace_run U t1) with
    | Some (name, status) => Some (name, str "test." ++ name ++ str "..." ++ status)
    | None => None
    end
  else None.

(** [re.finditer(test_pattern, content)]: leftmost matches, the search
    resuming where the previous match ended. *)
Fixpoint finditer_from (U : unicode_tables) (skip : nat) (t : pystr)
    : list (pystr * pystr) :=
  match t with
  | [] => []
  | _ :: t' =>
      match skip with
      | S k => finditer_from U k t'
      | O =>
          match match_here U t with
          | Some (g1, g0) => (g1, g0) :: finditer_from U (length g0 - 1) t'
          | None => finditer_from U 0 t'
          end
      end
  end.

Definition finditer (U : unicode_tables) (content : pystr) : list (pystr * pystr) :=
  finditer_from U 0 content.

Definition extract_category (test_name : pystr) : pystr :=
  let parts := split (str ".") test_name in
  if bool_decide (2 <= length parts)%nat
  then nth 1 parts []
  else str "unknown".

(** [status = match.group(0).split('...')[-1]]. *)
Definition status_of (group0 : pystr) : pystr :=
  List.last (split (str "...") group0) [].

(** The first loop: the names that passed and those that failed. *)
Fixpoint classify (ms : list (pystr * pystr)) : list pystr * list pystr :=
  match ms with
  | [] => ([], [])
  | (test_name, group0) :: rest =>
      let '(passed, failed) := classify rest in
      if bool_decide (status_of group0 = str "OK")
      then (test_name :: passed, failed)
      else (passed, test_name :: failed)
  end.

(** [categories[category]['passed'] += 1] on a [defaultdict]. *)
Definition bump_passed (categories : gmap pystr (nat * nat)) (category : pystr)
    : gmap pystr (nat * nat) :=
  let counts := default (O, O) (categories !! category) in
  <[category := (S counts.1, counts.2)]> categories.

Definition bump_failed (categories : gmap pystr (nat * nat)) (category : pystr)
    : gmap pystr (nat * nat) :=
  let counts := default (O, O) (categories !! category) in
  <[category := (counts.1, S counts.2)]> categories.

Definition categorize (passed failed : list pystr) : gmap pystr (nat * nat) :=
  let categories :=
    fold_left (fun cats test => bump_passed cats (extract_category test)) passed ∅ in
  fold_left (fun cats test => bump_failed cats (extract_category test)) failed
    categories.

Record report : Type := {
  total : nat;
  passed : nat;
  failed : nat;
  categories : gmap pystr (nat * nat)
}.

(** [analyze_test_results] on the text of the log: the value it returns. *)
Definition analyze_test_results (U : unicode_tables) (content : pystr) : report :=
  let '(passed_names, failed_names) := classify (finditer U content) in
  let total_passed := length passed_names in
  let total_failed := length failed_names in
  {| total := total_passed + total_failed;
     passed := total_passed;
     failed := total_failed;
     categories := categorize passed_names failed_names |}.

(** [100 * passed / total if total > 0 else 0], which the report prints
    with one decimal. *)
Definition pass_rate (n_passed n_total : nat) : Q :=
  if bool_decide (0 < n_total)%nat
  then (100 * inject_Z (Z.of_nat n_passed) / inject_Z (Z.of_nat n_total))%Q
  else 0%Q.

End AnalyzeTestResults.

(** ** Notions used in the statements *)

(** The characters a sanitized name is made of. *)
Definition clean (U : unicode_tables) (c : N) : Prop := isalnum U c || (c =? underscore) = true.

Definition is_ascii (s : pystr) : Prop := Forall (fun c => c < 128) s.

(** The identifiers the unit loop hands out, in order. *)
Fixpoint unit_names (sanitize : pystr -> pystr) (used_names : gmap pystr nat)
    (keys : list pystr) : list pystr :=
  match keys with
  | [] => []
  | test_name :: rest =>
      let '(unique_test_name, used_names') :=
        unique_name used_names (sanitize test_name) in
      unique_test_name :: unit_names sanitize used_names' rest
  end.

(** How many of the keys [l] sanitize to [base]. *)
Definition occurrences (sanitize : pystr -> pystr) (base : pystr) (l : list pystr)
    : nat :=
  length (filter (fun k => sanitize k = base) l).

(** The identifier of a key whose base has been seen [n] times before. *)
Definition suffixed (base : pystr) (n : nat) : pystr :=
  match n with
  | O => base
  | S _ => base ++ str "_" ++ str_of_nat n
  end.

(** [used_names] after the keys [seen]. *)
Definition tracks (sanitize : pystr -> pystr) (seen : list pystr)
    (used_names : gmap pystr nat) : Prop :=
  forall base,
    used_names !! base =
    match occurrences sanitize base seen with
    | O => None
    | S n => Some n
    end.

(** Three distinct keys of one fixture file. *)
Definition colliding_keys : list pystr := [str "a.b"; str "a-b"; str "a_b_1"].

(** How many of the names [l] fall into [category]. *)
Definition in_category (category : pystr) (l : list pystr) : nat :=
  length (filter (fun test => AnalyzeTestResults.extract_category test = category) l).

Definition newline : pystr := [10].

(** The log of Scenario D. *)
Definition scenario_D_log : pystr :=
  str "test.stExample.test_add...OK" ++ newline ++
  str "test.stExample.test_sub...FAIL" ++ newline.

(** The same two results under the names the script documents, with the
    source as first segment. *)
Definition qualified_log : pystr :=
  str "test.ethereum_tests.stExample.test_add...OK" ++ newline ++
  str "test.ethereum_tests.stExample.test_sub...FAIL" ++ newline.

Definition record (s : state) (evs : list event) : state :=
  {| files := files s; events := events s ++ evs |}.




(** The files a run has written, in order. *)
Definition written (evs : list event) : list (path * zig_file) :=
  omap (fun e => match e with EWrite p f => Some (p, f) | _ => None end) evs.

(** Every event [m] adds to the log satisfies [P]. *)
Definition emits_only {A} (P : event -> Prop) (m : M A) : Prop :=
  forall s, exists l, events (m s).2 = events s ++ l /\ Forall P l.


Module Demo.

Definition repo_root : path := [str "/"; str "repo"].

Definition state_root : path :=
  repo_root // "execution-specs" // "tests" // "eest" // "static" // "state_tests".

Definition output_root : path := repo_root // "test" // "specs" // "generated_state".

(** Fixtures at depth 0, 1 and 2 below the root, a list instead of a
    mapping, a file that is not JSON, and an index in a [.meta] directory. *)
Definition top_json : path := state_root // "top.json".
Definition one_json : path := state_root // "stA" // "one.json".
Definition two_json : path := state_root // "stA" // "sub" // "two.json".
Definition list_json : path := state_root // "stA" // "list.json".
Definition broken_json : path := state_root // "stA" // "broken.json".
Definition meta_json : path := state_root // ".meta" // "index.json".

(** A well-formed fixture that lies outside the fixture root, and a
    malformed one next to it. *)
Definition stray_json : path := repo_root // "elsewhere" // "stray.json".
Definition stray_broken_json : path := repo_root // "elsewhere" // "broken.json".

Definition tree : gmap path node :=
  list_to_map
    (map (fun p => (p, Dir)) (prefixes (state_root // "stA" // "sub")) ++
     [ (state_root // ".meta", Dir); (repo_root // "elsewhere", Dir) ] ++
     map (fun p => (p, File))
       [top_json; one_json; two_json; list_json; broken_json; meta_json;
        stray_json; stray_broken_json]).

Definition start : state := {| files := tree; events := [] |}.

Definition loads (p : path) : result pyvalue :=
  if bool_decide (p = top_json) then Ok (PyDict colliding_keys)
  else if bool_decide (p = one_json) then Ok (PyDict [str "add"; str "sub"])
  else if bool_decide (p = two_json) then Ok (PyDict [])
  else if bool_decide (p = list_json) then Ok PyList
  else if bool_decide (p = meta_json) then Ok (PyDict [str "root_hash"])
  else if bool_decide (p = stray_json) then Ok (PyDict [str "add"])
  else Raised JSONDecodeError.

Definition world : FS.world :=
  {| load := loads; symlink_supported := true; archive := fun _ => None |}.

End Demo.

Module DemoAcquire.

Definition repo_root : path := [str "/"; str "r"].

Definition general_dir : path := repo_root // "ethereum-tests" // "GeneralStateTests".
Definition general_tar : path :=
  repo_root // "ethereum-tests" // "fixtures_general_state_tests.tgz".

Definition blockchain_tar : path :=
  repo_root // "ethereum-tests" // "fixtures_blockchain_tests.tgz".

(** The general-state archive holds one fixture; the blockchain archive
    holds a directory with a README and no JSON file. *)
Definition archives (tar : path) : option (list (path * node)) :=
  if bool_decide (tar = general_tar)
  then Some [ ([str "GeneralStateTests"], Dir);
              ([str "GeneralStateTests"; str "stA"], Dir);
              ([str "GeneralStateTests"; str "stA"; str "a.json"], File) ]
  else if bool_decide (tar = blockchain_tar)
  then Some [ ([str "BlockchainTests"], Dir);
              ([str "BlockchainTests"; str "README.md"], File) ]
  else None.

Definition world : FS.world :=
  {| load := fun _ => Raised OSError;
     symlink_supported := true;
     archive := archives |}.

Definition dirs (p : path) : list (path * node) :=
  map (fun q => (q, Dir)) (prefixes p).

(** An empty [GeneralStateTests] directory next to its archive. *)
Definition stuck : state :=
  {| files := list_to_map (dirs general_dir ++ [(general_tar, File)]);
     events := [] |}.


(** Nothing but the two archives. *)
Definition fresh : state :=
  {| files := list_to_map (dirs (repo_root // "ethereum-tests")
                           ++ [(general_tar, File); (blockchain_tar, File)]);
     events := [] |}.

End DemoAcquire.

(** ** Notions used in the further properties *)

(** Runs of underscores shortened to one underscore, in one pass. *)
Fixpoint squeeze (s : pystr) : pystr :=
  match s with
  | [] => []
  | c :: s' =>
      match s' with
      | d :: _ =>
          if (c =? underscore) && (d =? underscore) then squeeze s' else c :: squeeze s'
      | [] => [c]
      end
  end.

(** Whether a string starts with an underscore. *)
Definition starts_underscore (s : pystr) : bool :=
  match s with
  | c :: _ => c =? underscore
  | [] => false
  end.

(** [s and s[0].isdigit()]. *)
Definition starts_with_digit (U : unicode_tables) (s : pystr) : bool :=
  match s with
  | c :: _ => isdigit U c
  | [] => false
  end.

(** The passed and failed counts of all categories together. *)
Definition sum_counts (m : gmap pystr (nat * nat)) : nat * nat :=
  map_fold (fun _ v acc => ((v.1 + acc.1)%nat, (v.2 + acc.2)%nat)) (O, O) m.

(** What a match of the pattern looks like. *)
Definition well_matched (U : unicode_tables) (m : pystr * pystr) : Prop :=
  m.1 <> [] /\
  Forall (fun c => isspace U c = false) m.1 /\
  exists status,
    (status = str "OK" \/ status = str "FAIL") /\
    m.2 = str "test." ++ m.1 ++ str "..." ++ status.

(** The status token the test runner prints. *)
Definition status_text (ok : bool) : pystr := if ok then str "OK" else str "FAIL".

(** The text the pattern matches for a test called [name]. *)
Definition result_text (name : pystr) (ok : bool) : pystr :=
  str "test." ++ name ++ str "..." ++ status_text ok.

(** A log with one result per line. *)
Definition log_of (rs : list (pystr * bool)) : pystr :=
  flat_map (fun r => result_text r.1 r.2 ++ newline) rs.

(** A test name the runner can print on a result line: not empty, free of
    whitespace, and not ending in a dot. *)
Definition printable_name (U : unicode_tables) (name : pystr) : Prop :=
  name <> [] /\ Forall (fun c => isspace U c = false) name /\ List.last name 0 <> dot.


(** What a run that rebuilds [output_root] may do. *)
Definition rebuild_event (output_root : path) (e : event) : Prop :=
  match e with
  | ERmtree p => p = output_root
  | EWrite p _ => is_prefix_of output_root p = true
  | EMkdir _ | EStderr _ => True
  | _ => False
  end.

(** What a run of [generate_tests.py] may do. *)
Definition multi_source_event (repo_root : path) (e : event) : Prop :=
  match e with
  | ERmtree p => p = repo_root // "test" // "specs" // "generated"
  | EWrite p _ =>
      is_prefix_of (repo_root // "test" // "specs" // "generated") p = true
  | EExtract tar dest =>
      tar = repo_root // "ethereum-tests" // "fixtures_general_state_tests.tgz" /\
      dest = repo_root // "ethereum-tests"
  | EMkdir _ | EStderr _ | EStdout _ => True
  | _ => False
  end.

(** [c] keeps [I], however it ends. *)
Definition preserves {A} (I : state -> Prop) (c : M A) : Prop :=
  forall s, I s -> I (c s).2.

(** The log has grown from [base] by events that satisfy [P]. *)
Definition grown_by (P : event -> Prop) (base : list event) (s : state) : Prop :=
  exists l, events s = base ++ l /\ Forall P l.

(** The entries [s0] has outside [root] are still there in [s]. *)
Definition keeps_outside (root : path) (s0 s : state) : Prop :=
  forall q n,
    is_prefix_of root q = false -> files s0 !! q = Some n -> files s !! q = Some n.

(** Every regular file at or below [root] was written by one of [l]. *)
Definition all_written (root : path) (l : list event) (m : gmap path node) : Prop :=
  forall q,
    is_prefix_of root q = true -> m !! q = Some File -> exists f, EWrite q f ∈ l.

(** Since [base], every regular file at or below [root] has been written. *)
Definition rebuilt_since (root : path) (base : list event) (s : state) : Prop :=
  exists l, events s = base ++ l /\ all_written root l (files s).

(** What a run of [generate_spec_tests.py] in blockchain mode may do. *)
Definition blockchain_event (repo_root : path) (e : event) : Prop :=
  let specs_root :=
    repo_root // "execution-spec-tests" // "fixtures" // "blockchain_tests" in
  let output_root := repo_root // "test" // "specs" // "generated_blockchain" in
  match e with
  | ERmtree p => p = specs_root \/ p = output_root
  | EWrite p _ => is_prefix_of output_root p = true
  | ESymlink src dst | ECopytree src dst =>
      src = repo_root // "ethereum-tests" // "BlockchainTests" /\ dst = specs_root
  | EExtract tar dest =>
      tar = repo_root // "ethereum-tests" // "fixtures_blockchain_tests.tgz" /\
      dest = parent specs_root
  | ERename src dst =>
      src = parent specs_root // "BlockchainTests" /\ dst = specs_root
  | EMkdir _ | EStderr _ | EStdout _ => True
  end.

(** Anything but the writing of a file. *)
Definition not_write (e : event) : Prop :=
  match e with EWrite _ _ => False | _ => True end.

Module DemoRebuild.

(** The repository of [Demo] after an earlier run: the output directory
    holds a file that no fixture stands for any more. *)
Definition stale_zig : path := Demo.output_root // "gone.zig".

Definition stale : state :=
  {| files := <[stale_zig := File]> (add_dirs Demo.tree Demo.output_root);
     events := [] |}.

(** The same for [generate_tests.py], in a repository whose
    [GeneralStateTests] directory exists. *)
Definition multi_output : path :=
  DemoAcquire.repo_root // "test" // "specs" // "generated".

Definition multi_stale : state :=
  {| files := <[multi_output // "gone.zig" := File]>
                (add_dirs (files DemoAcquire.stuck) multi_output);
     events := [] |}.

(** A checkout below a directory called [.meta]. *)
Definition meta_repo : path := [str "/"; str ".meta"; str "repo"].

End DemoRebuild.

(* ===================================================================== *)
(** * Properties *)
(* ===================================================================== *)

(** ** Strings *)

(** Close an equation between closed terms by evaluating both sides, without
    writing the value out in the proof. *)
Ltac by_vm :=
  match goal with
  | |- ?l = ?r => vm_cast_no_check (@eq_refl _ r)
  end.

(** Turn the string literals of the goal into their code points. *)
Ltac eval_str :=
  repeat match goal with
         | |- context [str ?lit] =>
             let v := eval vm_compute in (str lit) in change (str lit) with v
         end.

Section StringFacts.

Lemma starts_with_head o old c s :
  starts_with (o :: old) (c :: s) = true -> o = c.
Proof.
  simpl. intros H. apply andb_prop in H as [H _]. by apply N.eqb_eq in H.
Qed.

(** A pattern whose first character does not occur is never found. *)
Lemma replace_from_absent o old new s :
  o ∉ s -> replace_from (o :: old) new 0 s = s.
Proof.
  induction s as [|c s IH]; intros Hn; [done|].
  cbn [replace_from].
  destruct (starts_with (o :: old) (c :: s)) eqn:E.
  - apply starts_with_head in E. subst. exfalso. apply Hn. left.
  - f_equal. apply IH. intros ?. apply Hn. by right.
Qed.

Lemma replace_absent o old new s :
  o ∉ s -> replace (o :: old) new s = s.
Proof. apply replace_from_absent. Qed.

(** Every character of the result comes from the input or from [new]. *)
Lemma replace_from_Forall (P : N -> Prop) old new skip s :
  Forall P new -> Forall P s -> Forall P (replace_from old new skip s).
Proof.
  intros Hnew. revert skip.
  induction s as [|c s IH]; intros skip Hs; [constructor|].
  apply Forall_cons in Hs as [Hc Hs].
  destruct skip as [|k]; cbn [replace_from].
  - destruct (starts_with old (c :: s)).
    + apply Forall_app. split; [done | by apply IH].
    + constructor; [done | by apply IH].
  - by apply IH.
Qed.

Lemma replace1_Forall (P : N -> Prop) o old new s :
  Forall P new -> Forall P s -> Forall P (replace (o :: old) new s).
Proof. apply replace_from_Forall. Qed.

End StringFacts.

(** ** The identifier sanitizer *)

Section SanitizerFacts.

Variable U : unicode_tables.
Hypothesis HU : ascii_faithful U.

Lemma clean_underscore : clean U underscore.
Proof. unfold clean. rewrite N.eqb_refl. apply orb_true_r. Qed.

Lemma clean_ascii_alnum c : c < 128 -> ascii_isalnum c = true -> clean U c.
Proof.
  intros Hc Ha. unfold clean. destruct (HU c Hc) as [-> _]. by rewrite Ha.
Qed.

(** An ASCII punctuation character never occurs in a clean string. *)
Lemma clean_excludes p s :
  p < 128 -> ascii_isalnum p = false -> p ≠ underscore ->
  Forall (clean U) s -> p ∉ s.
Proof.
  intros Hp Ha Hne Hs Hin.
  rewrite Forall_forall in Hs. specialize (Hs p Hin). unfold clean in Hs.
  destruct (HU p Hp) as [E _]. rewrite E, Ha in Hs. simpl in Hs.
  apply N.eqb_eq in Hs. done.
Qed.

Lemma keep_alnum_clean s : Forall (clean U) (keep_alnum U s).
Proof.
  unfold keep_alnum. apply Forall_forall. intros c Hc.
  apply list_elem_of_fmap in Hc as [d [-> _]].
  destruct (isalnum U d || (d =? underscore)) eqn:E; [exact E|].
  apply clean_underscore.
Qed.

Lemma keep_alnum_id s : Forall (clean U) s -> keep_alnum U s = s.
Proof.
  induction 1 as [|c s Hc _ IH]; [done|].
  unfold keep_alnum in *. cbn [map]. unfold clean in Hc. rewrite Hc.
  by f_equal.
Qed.

Lemma replace_clean_id p old new s :
  p < 128 -> ascii_isalnum p = false -> p ≠ underscore ->
  Forall (clean U) s -> replace (p :: old) new s = s.
Proof. intros. apply replace_absent. by apply clean_excludes. Qed.

Lemma test_prefix_clean : Forall (clean U) (str "test_").
Proof.
  change (str "test_") with [116; 101; 115; 116; underscore].
  repeat (constructor; [apply clean_ascii_alnum; [lia | reflexivity] |]).
  constructor; [apply clean_underscore | constructor].
Qed.

Lemma prefix_digit_clean s : Forall (clean U) s -> Forall (clean U) (prefix_digit U s).
Proof.
  intros Hs. unfold prefix_digit. destruct s as [|c s]; [done|].
  destruct (isdigit U c); [|done].
  apply Forall_app. split; [apply test_prefix_clean | done].
Qed.

Lemma prefix_digit_cons c s :
  prefix_digit U (c :: s) = if isdigit U c then str "test_" ++ c :: s else c :: s.
Proof. reflexivity. Qed.

Lemma prefix_digit_idem s : prefix_digit U (prefix_digit U s) = prefix_digit U s.
Proof.
  destruct s as [|c s]; [done|]. rewrite (prefix_digit_cons c s).
  destruct (isdigit U c) eqn:E.
  - change (str "test_" ++ c :: s) with (116 :: (str "est_" ++ c :: s)).
    rewrite prefix_digit_cons.
    destruct (HU 116) as (_ & -> & _); [lia|]. reflexivity.
  - rewrite prefix_digit_cons. by rewrite E.
Qed.

(** One round of the collapsing loop shortens the string. *)
Lemma replace_from_uu_le skip s :
  (length (replace_from [underscore; underscore] [underscore] skip s)
   <= length s)%nat.
Proof.
  revert skip. induction s as [|c s IH]; intros skip; [done|].
  destruct skip as [|k]; cbn [replace_from].
  - destruct (starts_with _ (c :: s)).
    + cbn [app length Nat.sub]. specialize (IH 1%nat). lia.
    + cbn [length]. specialize (IH 0%nat). lia.
  - cbn [length]. specialize (IH k). lia.
Qed.

Lemma replace_uu_shorter s :
  contains (str "__") s = true ->
  (length (replace (str "__") (str "_") s) < length s)%nat.
Proof.
  change (replace (str "__") (str "_") s)
    with (replace_from [underscore; underscore] [underscore] 0 s).
  change (str "__") with [underscore; underscore].
  induction s as [|c s IH]; intros Hc; [discriminate|].
  cbn [contains] in Hc. cbn [replace_from].
  destruct (starts_with _ (c :: s)) eqn:E.
  - destruct s as [|d s]; [cbn in E; by rewrite andb_false_r in E|].
    cbn [app length Nat.sub replace_from].
    pose proof (replace_from_uu_le 0 s). lia.
  - cbn [orb] in Hc. specialize (IH Hc). cbn [length]. lia.
Qed.

(** The loop has stopped by itself within its [length s] rounds. *)
Lemma collapse_loop_done fuel s :
  (length s <= fuel)%nat -> contains (str "__") (collapse_loop fuel s) = false.
Proof.
  revert s. induction fuel as [|fuel IH]; intros s Hl.
  - destruct s; [reflexivity | simpl in Hl; lia].
  - cbn [collapse_loop]. destruct (contains (str "__") s) eqn:E; [|done].
    apply IH. pose proof (replace_uu_shorter s E). lia.
Qed.

Lemma collapse_loop_clean fuel s :
  Forall (clean U) s -> Forall (clean U) (collapse_loop fuel s).
Proof.
  revert s. induction fuel as [|fuel IH]; intros s Hs; [done|].
  cbn [collapse_loop]. destruct (contains (str "__") s); [|done].
  apply IH. apply replace1_Forall; [|done].
  repeat constructor. apply clean_underscore.
Qed.

Lemma collapse_loop_id fuel s :
  contains (str "__") s = false -> collapse_loop fuel s = s.
Proof. intros E. destruct fuel; [done|]. cbn [collapse_loop]. by rewrite E. Qed.

Lemma isdigit_not_underscore c : isdigit U c = true -> c ≠ underscore.
Proof.
  intros Hd ->. destruct (HU underscore) as (_ & E & _); [reflexivity|].
  rewrite E in Hd. discriminate.
Qed.

Lemma prefix_digit_no_uu s :
  contains (str "__") s = false -> contains (str "__") (prefix_digit U s) = false.
Proof.
  intros Hs. unfold prefix_digit. destruct s as [|c s]; [done|].
  destruct (isdigit U c) eqn:Ed; [|done].
  apply isdigit_not_underscore in Ed.
  change (str "test_" ++ c :: s) with (116 :: 101 :: 115 :: 116 :: underscore :: c :: s).
  change (str "__") with [underscore; underscore] in *.
  assert ((underscore =? c) = false) as Hc
    by (apply N.eqb_neq; congruence).
  cbn [contains starts_with] in *. rewrite Hc.
  apply orb_false_elim in Hs as [_ Hs2]. rewrite Hs2.
  destruct s; reflexivity.
Qed.

Ltac drop_replace :=
  match goal with
  | Hs : Forall (clean U) ?s |- context [replace (?p :: ?old) ?new ?s] =>
      rewrite (replace_clean_id p old new s) by (done || lia)
  end.

(** The three (resp. nine) literal replacements leave a clean string alone. *)
Lemma simple_replaces_id s :
  Forall (clean U) s ->
  replace (str " ") (str "_")
    (replace (str ".") (str "_") (replace (str "-") (str "_") s)) = s.
Proof. intros Hs. eval_str. by repeat drop_replace. Qed.

Lemma rich_replaces_id s :
  Forall (clean U) s ->
  replace (str ",") (str "_")
    (replace (str "]") (str "_")
       (replace (str "[") (str "_")
          (replace (str ")") (str "_")
             (replace (str "(") (str "_")
                (replace (str "::") (str "_") s))))) = s.
Proof. intros Hs. eval_str. by repeat drop_replace. Qed.

Lemma simple_sanitize_clean x :
  Forall (clean U) (GenerateSpecTests.sanitize_test_name U x).
Proof. apply prefix_digit_clean, keep_alnum_clean. Qed.

Lemma rich_sanitize_clean x :
  Forall (clean U) (GenerateTests.sanitize_test_name U x).
Proof. apply prefix_digit_clean, collapse_loop_clean, keep_alnum_clean. Qed.

Lemma rich_sanitize_no_uu x :
  contains (str "__") (GenerateTests.sanitize_test_name U x) = false.
Proof. apply prefix_digit_no_uu, collapse_loop_done. lia. Qed.

Lemma simple_sanitize_fixpoint s :
  Forall (clean U) s -> prefix_digit U s = s ->
  GenerateSpecTests.sanitize_test_name U s = s.
Proof.
  intros Hs Hp. unfold GenerateSpecTests.sanitize_test_name.
  rewrite simple_replaces_id by done. by rewrite keep_alnum_id.
Qed.

Lemma rich_sanitize_fixpoint s :
  Forall (clean U) s -> contains (str "__") s = false -> prefix_digit U s = s ->
  GenerateTests.sanitize_test_name U s = s.
Proof.
  intros Hs Hu Hp. unfold GenerateTests.sanitize_test_name.
  rewrite simple_replaces_id by done. rewrite rich_replaces_id by done.
  rewrite keep_alnum_id by done. by rewrite collapse_loop_id.
Qed.

End SanitizerFacts.

Lemma ascii_tables_faithful : ascii_faithful ascii_tables.
Proof. intros c _. repeat split. Qed.

(** C7: sanitizing a sanitized name changes nothing, for the richer variant of
    [generate_tests.py] (which also collapses runs of underscores) and for the
    simpler variant of [generate_spec_tests.py]. *)
Theorem sanitize_idempotent (U : unicode_tables) (x : pystr) :
  ascii_faithful U ->
  GenerateTests.sanitize_test_name U (GenerateTests.sanitize_test_name U x)
    = GenerateTests.sanitize_test_name U x /\
  GenerateSpecTests.sanitize_test_name U (GenerateSpecTests.sanitize_test_name U x)
    = GenerateSpecTests.sanitize_test_name U x.
Proof.
  intros HU. split.
  - apply rich_sanitize_fixpoint; [done | | |].
    + by apply rich_sanitize_clean.
    + by apply rich_sanitize_no_uu.
    + by apply prefix_digit_idem.
  - apply simple_sanitize_fixpoint; [done | |].
    + by apply simple_sanitize_clean.
    + by apply prefix_digit_idem.
Qed.

Lemma sanitize_idempotent_witness :
  GenerateTests.sanitize_test_name ascii_tables
    (GenerateTests.sanitize_test_name ascii_tables (str "1st::case (a--b)"))
    = GenerateTests.sanitize_test_name ascii_tables (str "1st::case (a--b)") /\
  GenerateSpecTests.sanitize_test_name ascii_tables
    (GenerateSpecTests.sanitize_test_name ascii_tables (str "1st::case (a--b)"))
    = GenerateSpecTests.sanitize_test_name ascii_tables (str "1st::case (a--b)").
Proof.
  apply (sanitize_idempotent ascii_tables (str "1st::case (a--b)")).
  exact ascii_tables_faithful.
Defined.

Example rich_sanitize_example :
  GenerateTests.sanitize_test_name ascii_tables (str "1st::case (a--b)")
  = str "test_1st_case_a_b_".
Proof. vm_compute. reflexivity. Qed.

Example simple_sanitize_example :
  GenerateSpecTests.sanitize_test_name ascii_tables (str "1st::case (a--b)")
  = str "test_1st__case__a__b_".
Proof. vm_compute. reflexivity. Qed.


(** ** Names made of ASCII characters

    On such names the sanitizers do not depend on the tables beyond what
    Python fixes. *)

Ltac solve_is_ascii :=
  unfold is_ascii; eval_str; repeat (constructor; [reflexivity |]); constructor.

Section AsciiNames.

Variable U : unicode_tables.
Hypothesis HU : ascii_faithful U.

Lemma keep_alnum_ascii s :
  is_ascii s -> keep_alnum U s = keep_alnum ascii_tables s /\ is_ascii (keep_alnum U s).
Proof.
  induction 1 as [|c s Hc _ [IH1 IH2]]; [split; [done | constructor]|].
  unfold keep_alnum in *. cbn [map]. rewrite IH1.
  destruct (HU c Hc) as [-> _]. split; [done|].
  constructor; [|by rewrite <- IH1].
  cbn [isalnum ascii_tables]. by destruct (ascii_isalnum c || (c =? underscore)).
Qed.

Lemma prefix_digit_ascii s :
  is_ascii s -> prefix_digit U s = prefix_digit ascii_tables s.
Proof.
  intros Hs. destruct s as [|c s]; [done|].
  apply Forall_cons in Hs as [Hc _]. unfold prefix_digit.
  by destruct (HU c Hc) as (_ & -> & _).
Qed.

Lemma replace_ascii o old s :
  is_ascii s -> is_ascii (replace (o :: old) [underscore] s).
Proof. intros Hs. apply replace1_Forall; [|done]. by repeat constructor. Qed.

Lemma collapse_loop_ascii fuel s : is_ascii s -> is_ascii (collapse_loop fuel s).
Proof.
  revert s. induction fuel as [|fuel IH]; intros s Hs; [done|].
  cbn [collapse_loop]. destruct (contains (str "__") s); [|done].
  by apply IH, replace_ascii.
Qed.

Lemma simple_sanitize_ascii x :
  is_ascii x ->
  GenerateSpecTests.sanitize_test_name U x
  = GenerateSpecTests.sanitize_test_name ascii_tables x.
Proof.
  intros Hx. unfold GenerateSpecTests.sanitize_test_name.
  set (r := replace _ _ (replace _ _ (replace _ _ x))).
  assert (is_ascii r) as Hr by (subst r; eval_str; by repeat apply replace_ascii).
  destruct (keep_alnum_ascii r Hr) as [<- Hk].
  by apply prefix_digit_ascii.
Qed.

Lemma rich_sanitize_ascii x :
  is_ascii x ->
  GenerateTests.sanitize_test_name U x
  = GenerateTests.sanitize_test_name ascii_tables x.
Proof.
  intros Hx. unfold GenerateTests.sanitize_test_name.
  set (r := replace _ _ (replace _ _ (replace _ _ (replace _ _ (replace _ _
             (replace _ _ (replace _ _ (replace _ _ (replace _ _ x))))))))).
  assert (is_ascii r) as Hr by (subst r; eval_str; by repeat apply replace_ascii).
  destruct (keep_alnum_ascii r Hr) as [<- Hk].
  by apply prefix_digit_ascii, collapse_loop_ascii.
Qed.

End AsciiNames.

(** ** Unit identifiers *)

Section UnitNames.

Variable sanitize : pystr -> pystr.

Lemma occurrences_snoc base seen k :
  occurrences sanitize base (seen ++ [k]) =
  (occurrences sanitize base seen + if decide (sanitize k = base) then 1 else 0)%nat.
Proof.
  unfold occurrences. rewrite filter_app, length_app. f_equal.
  rewrite filter_cons, filter_nil. by destruct (decide (sanitize k = base)).
Qed.

Lemma tracks_empty : tracks sanitize [] ∅.
Proof. intros base. by rewrite lookup_empty. Qed.

Lemma unique_name_tracks seen used_names k :
  tracks sanitize seen used_names ->
  (unique_name used_names (sanitize k)).1
    = suffixed (sanitize k) (occurrences sanitize (sanitize k) seen) /\
  tracks sanitize (seen ++ [k]) (unique_name used_names (sanitize k)).2.
Proof.
  intros Ht. unfold unique_name. pose proof (Ht (sanitize k)) as Hk.
  destruct (occurrences sanitize (sanitize k) seen) as [|n] eqn:En; rewrite Hk; cbn [fst snd].
  - split; [done|]. intros base. rewrite occurrences_snoc.
    destruct (decide (sanitize k = base)) as [<-|Hne].
    + by rewrite lookup_insert_eq, En.
    + rewrite lookup_insert_ne by done. rewrite Ht. by rewrite Nat.add_0_r.
  - split; [done|]. intros base. rewrite occurrences_snoc.
    destruct (decide (sanitize k = base)) as [<-|Hne].
    + rewrite lookup_insert_eq, En. by rewrite Nat.add_1_r.
    + rewrite lookup_insert_ne by done. rewrite Ht. by rewrite Nat.add_0_r.
Qed.

(** Every key gets its base, followed by [_n] when [n > 0] earlier keys
    of the file had the same base. *)
Lemma unit_names_lookup seen used_names keys i k :
  tracks sanitize seen used_names ->
  keys !! i = Some k ->
  unit_names sanitize used_names keys !! i
  = Some (suffixed (sanitize k) (occurrences sanitize (sanitize k) (seen ++ take i keys))).
Proof.
  revert seen used_names i.
  induction keys as [|k0 keys IH]; intros seen used_names i Ht Hi; [done|].
  cbn [unit_names].
  destruct (unique_name_tracks seen used_names k0 Ht) as [Hname Ht'].
  destruct (unique_name used_names (sanitize k0)) as [nm used'] eqn:E.
  cbn [fst snd] in *. destruct i as [|i].
  - injection Hi as ->. cbn [take]. rewrite app_nil_r. by subst nm.
  - change ((nm :: unit_names sanitize used' keys) !! S i)
      with (unit_names sanitize used' keys !! i).
    change ((k0 :: keys) !! S i) with (keys !! i) in Hi.
    rewrite (IH (seen ++ [k0]) used' i Ht' Hi).
    by rewrite <- app_assoc.
Qed.

Lemma unit_names_length used_names keys :
  length (unit_names sanitize used_names keys) = length keys.
Proof.
  revert used_names. induction keys as [|k keys IH]; intros used_names; [done|].
  cbn [unit_names]. destruct (unique_name used_names (sanitize k)).
  cbn [length]. by rewrite IH.
Qed.

End UnitNames.

(** The two unit loops hand out exactly these identifiers. *)
Lemma rich_emit_units_names U json_rel_path used_names keys :
  map unit_name (GenerateTests.emit_units U json_rel_path used_names keys)
  = unit_names (GenerateTests.sanitize_test_name U) used_names keys.
Proof.
  revert used_names. induction keys as [|k keys IH]; intros used_names; [done|].
  cbn [GenerateTests.emit_units unit_names].
  destruct (unique_name used_names _) as [nm used']. cbn [map unit_name].
  by rewrite IH.
Qed.

Lemma simple_emit_units_names U specs_root repo_root rel_path used_names keys s :
  GenerateSpecTests.emit_units U specs_root repo_root rel_path used_names keys s
  = match keys, relative_to (joinpath specs_root rel_path) repo_root with
    | [], _ => (Ok [], s)
    | _ :: _, None => (Raised ValueError, s)
    | _ :: _, Some json_abs_path =>
        (Ok (map (fun '(nm, k) =>
                    {| unit_name := nm;
                       unit_json_path := to_str json_abs_path;
                       unit_test_name := k |})
               (zip (unit_names (GenerateSpecTests.sanitize_test_name U)
                       used_names keys) keys)), s)
    end.
Proof.
  revert used_names. induction keys as [|k keys IH]; intros used_names; [done|].
  cbn [GenerateSpecTests.emit_units unit_names].
  destruct (unique_name used_names _) as [nm used'].
  destruct (relative_to _ repo_root) as [abs|] eqn:E; [|done].
  unfold FS.bind. cbn [of_option ret]. rewrite IH.
  destruct keys; done.
Qed.

Lemma unit_names_ext (f g : pystr -> pystr) used_names keys :
  Forall (fun k => f k = g k) keys ->
  unit_names f used_names keys = unit_names g used_names keys.
Proof.
  intros H. revert used_names.
  induction H as [|k keys Hk _ IH]; intros used_names; [done|].
  cbn [unit_names]. rewrite Hk. destruct (unique_name used_names (g k)).
  by rewrite IH.
Qed.

(** The first key of a file that reaches a base keeps the bare base. *)
Corollary first_occurrence_keeps_base sanitize keys i k :
  keys !! i = Some k ->
  occurrences sanitize (sanitize k) (take i keys) = O ->
  unit_names sanitize ∅ keys !! i = Some (sanitize k).
Proof.
  intros Hi Hn.
  pose proof (unit_names_lookup sanitize [] ∅ keys i k (tracks_empty sanitize) Hi)
    as H.
  cbn [app] in H. rewrite Hn in H. exact H.
Qed.

(** The [n]-th later key with the same base gets the suffix [_n]. *)
Corollary later_occurrence_gets_suffix sanitize keys i k n :
  keys !! i = Some k ->
  occurrences sanitize (sanitize k) (take i keys) = S n ->
  unit_names sanitize ∅ keys !! i
  = Some (sanitize k ++ str "_" ++ str_of_nat (S n)).
Proof.
  intros Hi Hn.
  pose proof (unit_names_lookup sanitize [] ∅ keys i k (tracks_empty sanitize) Hi)
    as H.
  cbn [app] in H. rewrite Hn in H. exact H.
Qed.

(** C1 (violated by the code): the fixture file
    [{"a.b": {}, "a-b": {}, "a_b_1": {}}] has three distinct keys, and both
    generators emit the identifiers [a_b], [a_b_1], [a_b_1]: the suffixed
    identifier of the second key is also the unsuffixed identifier of the
    third, so the identifiers of one output file are not pairwise distinct. *)
Theorem unit_names_collide (U : unicode_tables) :
  ascii_faithful U ->
  NoDup colliding_keys /\
  (forall json_rel_path,
      map unit_name (GenerateTests.emit_units U json_rel_path ∅ colliding_keys)
      = [str "a_b"; str "a_b_1"; str "a_b_1"]) /\
  (forall specs_root repo_root rel_path json_abs_path s,
      relative_to (joinpath specs_root rel_path) repo_root = Some json_abs_path ->
      exists us,
        GenerateSpecTests.emit_units U specs_root repo_root rel_path ∅
          colliding_keys s = (Ok us, s) /\
        map unit_name us = [str "a_b"; str "a_b_1"; str "a_b_1"]) /\
  ~ NoDup [str "a_b"; str "a_b_1"; str "a_b_1"].
Proof.
  intros HU. split; [|split; [|split]].
  - apply (bool_decide_unpack (NoDup colliding_keys)). vm_compute. exact I.
  - intros json_rel_path. rewrite rich_emit_units_names.
    rewrite (unit_names_ext _ (GenerateTests.sanitize_test_name ascii_tables)).
    + vm_compute. reflexivity.
    + repeat constructor; apply rich_sanitize_ascii; try done; solve_is_ascii.
  - intros specs_root repo_root rel_path json_abs_path s Hrel.
    rewrite simple_emit_units_names. unfold colliding_keys at 1. rewrite Hrel.
    eexists. split; [reflexivity|].
    rewrite (unit_names_ext _ (GenerateSpecTests.sanitize_test_name ascii_tables)).
    + vm_compute. reflexivity.
    + repeat constructor; apply simple_sanitize_ascii; try done; solve_is_ascii.
  - intros Hnd. apply NoDup_cons in Hnd as [_ Hnd].
    apply NoDup_cons in Hnd as [Hnin _]. apply Hnin. left.
Qed.

Lemma unit_names_collide_witness :
  map unit_name
    (GenerateTests.emit_units ascii_tables (str "fixtures/f.json") ∅ colliding_keys)
  = [str "a_b"; str "a_b_1"; str "a_b_1"].
Proof.
  exact (proj1 (proj2 (unit_names_collide ascii_tables ascii_tables_faithful))
           (str "fixtures/f.json")).
Defined.

(** ** The result analyzer *)

Section AnalyzerFacts.

Import AnalyzeTestResults.

(** *** Splitting at dots *)

Lemma split_char_last sep cur a :
  sep ∉ a -> split_from [sep] 0 cur a = [rev cur ++ a].
Proof.
  revert cur. induction a as [|c a IH]; intros cur Hn.
  - by rewrite app_nil_r.
  - cbn [split_from starts_with].
    assert ((sep =? c) = false) as ->
      by (apply N.eqb_neq; intros <-; apply Hn; left).
    cbn [andb]. rewrite IH by (intros ?; apply Hn; by right).
    cbn [rev]. by rewrite <- app_assoc.
Qed.

Lemma split_char_first sep cur a rest :
  sep ∉ a ->
  split_from [sep] 0 cur (a ++ sep :: rest)
  = (rev cur ++ a) :: split_from [sep] 0 [] rest.
Proof.
  revert cur. induction a as [|c a IH]; intros cur Hn.
  - cbn [app split_from starts_with]. rewrite N.eqb_refl. cbn [andb length Nat.sub].
    by rewrite app_nil_r.
  - cbn [app split_from starts_with].
    assert ((sep =? c) = false) as ->
      by (apply N.eqb_neq; intros <-; apply Hn; left).
    cbn [andb]. rewrite IH by (intros ?; apply Hn; by right).
    cbn [rev]. by rewrite <- app_assoc.
Qed.

Lemma split_from_nonempty sep skip cur s : split_from sep skip cur s <> [].
Proof.
  revert skip cur. induction s as [|c s IH]; intros skip cur; [done|].
  destruct skip; cbn [split_from]; [|apply IH].
  destruct (starts_with sep (c :: s)); [done | apply IH].
Qed.

(** In [a.b] and in [a.b.c...] the category is [b]. *)
Lemma extract_category_second a b tail :
  dot ∉ a -> dot ∉ b ->
  extract_category (a ++ dot :: b) = b /\
  extract_category (a ++ dot :: b ++ dot :: tail) = b.
Proof.
  intros Ha Hb. unfold extract_category, split.
  change (str ".") with [dot]. split.
  - rewrite split_char_first by done. by rewrite split_char_last.
  - rewrite split_char_first by done. rewrite split_char_first by done.
    cbn [rev app length nth].
    destruct (split_from [dot] 0 [] tail) eqn:E; [by apply split_from_nonempty in E|].
    done.
Qed.

(** A name without a dot has a single segment. *)
Lemma extract_category_unknown s :
  dot ∉ s -> extract_category s = str "unknown".
Proof.
  intros Hs. unfold extract_category, split. change (str ".") with [dot].
  by rewrite split_char_last.
Qed.

(** *** Counting *)

Lemma fold_bump_passed l cats category :
  fold_left (fun cats test => bump_passed cats (extract_category test)) l cats
    !! category
  = match in_category category l with
    | O => cats !! category
    | S n =>
        Some ((S n + (default (O, O) (cats !! category)).1)%nat,
              (default (O, O) (cats !! category)).2)
    end.
Proof.
  revert cats. induction l as [|t l IH]; intros cats; [done|].
  cbn [fold_left]. rewrite IH. unfold in_category, bump_passed.
  rewrite filter_cons.
  destruct (decide (extract_category t = category)) as [->|Hne].
  - rewrite lookup_insert_eq. cbn [length].
    destruct (cats !! category) as [[p f]|], (length _);
      cbn [default fst snd id]; f_equal; apply pair_equal_spec; lia.
  - by rewrite lookup_insert_ne.
Qed.

Lemma fold_bump_failed l cats category :
  fold_left (fun cats test => bump_failed cats (extract_category test)) l cats
    !! category
  = match in_category category l with
    | O => cats !! category
    | S n =>
        Some ((default (O, O) (cats !! category)).1,
              (S n + (default (O, O) (cats !! category)).2)%nat)
    end.
Proof.
  revert cats. induction l as [|t l IH]; intros cats; [done|].
  cbn [fold_left]. rewrite IH. unfold in_category, bump_failed.
  rewrite filter_cons.
  destruct (decide (extract_category t = category)) as [->|Hne].
  - rewrite lookup_insert_eq. cbn [length].
    destruct (cats !! category) as [[p f]|], (length _);
      cbn [default fst snd id]; f_equal; apply pair_equal_spec; lia.
  - by rewrite lookup_insert_ne.
Qed.

(** Every category that occurs carries the number of passed and of failed
    names whose second segment it is; no other category is recorded. *)
Lemma categorize_lookup passed_names failed_names category :
  categorize passed_names failed_names !! category
  = match in_category category passed_names, in_category category failed_names with
    | O, O => None
    | p, f => Some (p, f)
    end.
Proof.
  unfold categorize. rewrite fold_bump_failed, fold_bump_passed.
  rewrite lookup_empty.
  destruct (in_category category passed_names),
           (in_category category failed_names);
    cbn [default fst snd id]; try done; f_equal; apply pair_equal_spec; lia.
Qed.

(** *** Logs made of ASCII characters *)

Variable U : unicode_tables.
Hypothesis HU : ascii_faithful U.

Lemma nonspace_run_ascii t :
  is_ascii t -> nonspace_run U t = nonspace_run ascii_tables t.
Proof.
  induction 1 as [|c t Hc _ IH]; [done|]. cbn [nonspace_run].
  destruct (HU c Hc) as (_ & _ & ->). by rewrite IH.
Qed.

Lemma match_here_ascii t :
  is_ascii t -> match_here U t = match_here ascii_tables t.
Proof.
  intros Ht. unfold match_here.
  rewrite nonspace_run_ascii; [done|]. by apply Forall_drop.
Qed.

Lemma finditer_from_ascii skip t :
  is_ascii t -> finditer_from U skip t = finditer_from ascii_tables skip t.
Proof.
  intros Ht. revert skip. induction Ht as [|c t Hc Ht IH]; intros skip; [done|].
  cbn [finditer_from]. destruct skip; [|apply IH].
  rewrite match_here_ascii by (by constructor).
  destruct (match_here ascii_tables (c :: t)) as [[g1 g0]|]; by rewrite IH.
Qed.

Lemma analyze_ascii content :
  is_ascii content ->
  analyze_test_results U content = analyze_test_results ascii_tables content.
Proof.
  intros Hc. unfold analyze_test_results, finditer.
  by rewrite finditer_from_ascii.
Qed.

End AnalyzerFacts.

Import AnalyzeTestResults.

(** C2 as stated fails: on the log of Scenario D no category [stExample] is
    recorded at all; the two results land in [test_add] and [test_sub]. *)
Lemma scenario_D_category_counterexample :
  categories (analyze_test_results ascii_tables scenario_D_log) !! str "stExample"
    <> Some (1%nat, 1%nat) /\
  categories (analyze_test_results ascii_tables scenario_D_log)
    = <[str "test_add" := (1%nat, 0%nat)]> (<[str "test_sub" := (0%nat, 1%nat)]> ∅).
Proof. split; [vm_compute; discriminate | vm_compute; reflexivity]. Qed.

(** C2, amended: the category of a matched line is the second dot-delimited
    segment of the captured name, which is the text between the literal
    [test.] and the [...] separator (a captured name without a dot gets
    [unknown]), and every recorded category counts the passed and failed
    names that fall into it.  The log of Scenario D gives total 2, passed 1,
    failed 1 and an overall pass rate of 50, with the categories [test_add]
    and [test_sub]; the log with source-qualified names gives the single
    category [stExample] with passed 1 and failed 1. *)
Theorem analyzer_categories (U : unicode_tables) :
  ascii_faithful U ->
  (forall content category,
      let '(passed_names, failed_names) := classify (finditer U content) in
      categories (analyze_test_results U content) !! category
      = match in_category category passed_names,
              in_category category failed_names with
        | O, O => None
        | p, f => Some (p, f)
        end) /\
  (forall a b tail,
      dot ∉ a -> dot ∉ b ->
      extract_category (a ++ dot :: b) = b /\
      extract_category (a ++ dot :: b ++ dot :: tail) = b) /\
  (forall s, dot ∉ s -> extract_category s = str "unknown") /\
  (let r := analyze_test_results U scenario_D_log in
   total r = 2%nat /\ passed r = 1%nat /\ failed r = 1%nat /\
   (pass_rate (passed r) (total r) == 50)%Q /\
   categories r
   = <[str "test_add" := (1%nat, 0%nat)]> (<[str "test_sub" := (0%nat, 1%nat)]> ∅)) /\
  (let r := analyze_test_results U qualified_log in
   total r = 2%nat /\ passed r = 1%nat /\ failed r = 1%nat /\
   (pass_rate (passed r) (total r) == 50)%Q /\
   categories r = <[str "stExample" := (1%nat, 1%nat)]> ∅ /\
   (pass_rate 1 (1 + 1) == 50)%Q).
Proof.
  intros HU. split; [|split; [|split; [|split]]].
  - intros content category. unfold analyze_test_results.
    destruct (classify (finditer U content)) as [passed_names failed_names].
    cbn [categories]. apply categorize_lookup.
  - apply extract_category_second.
  - apply extract_category_unknown.
  - rewrite (analyze_ascii U HU) by (unfold scenario_D_log, newline; solve_is_ascii).
    vm_compute. repeat split.
  - rewrite (analyze_ascii U HU) by (unfold qualified_log, newline; solve_is_ascii).
    vm_compute. repeat split.
Qed.

Lemma analyzer_categories_witness :
  categories (analyze_test_results ascii_tables qualified_log)
  = <[str "stExample" := (1%nat, 1%nat)]> ∅.
Proof.
  pose proof (analyzer_categories ascii_tables ascii_tables_faithful)
    as (_ & _ & _ & _ & H).
  exact (proj1 (proj2 (proj2 (proj2 (proj2 H))))).
Defined.

(** ** Paths *)

Section PathFacts.

Lemma is_prefix_of_app (a b : path) : is_prefix_of a (a ++ b) = true.
Proof.
  induction a as [|x a IH]; [done|]. cbn [app is_prefix_of].
  by rewrite bool_decide_eq_true_2, IH.
Qed.

Lemma is_prefix_of_spec (a p : path) :
  is_prefix_of a p = true <-> exists b, p = a ++ b.
Proof.
  split.
  - revert p. induction a as [|x a IH]; intros p H; [by exists p|].
    destruct p as [|y p]; [done|]. cbn [is_prefix_of] in H.
    apply andb_prop in H as [Hxy H]. apply bool_decide_eq_true_1 in Hxy as ->.
    destruct (IH p H) as [b ->]. by exists b.
  - intros [b ->]. apply is_prefix_of_app.
Qed.





Lemma relative_to_Some (p other rel : path) :
  relative_to p other = Some rel -> p = other ++ rel.
Proof.
  unfold relative_to. destruct other as [|x other].
  - destruct (is_absolute p); [done|]. by intros [= ->].
  - destruct (is_prefix_of (x :: other) p) eqn:E; [|done].
    apply is_prefix_of_spec in E as [b ->]. intros [= <-].
    by rewrite drop_app_length.
Qed.


Lemma rfind_lt c s i : rfind c s = Some i -> (i < length s)%nat.
Proof.
  revert i. induction s as [|d s IH]; intros i; [done|]. cbn [rfind].
  destruct (rfind c s) as [j|].
  - intros [= <-]. specialize (IH j eq_refl). cbn [length]. lia.
  - destruct (d =? c); [|done]. intros [= <-]. cbn [length]. lia.
Qed.


End PathFacts.

(** ** Paths written as strings

    [generate_tests.py] receives the fixture's relative path as a string,
    rewrites it with [replace] and lets [pathlib] parse it again. *)

Section PathStrings.












End PathStrings.

(** ** Running the effects *)

Section Runs.

Lemma record_nil s : record s [] = s.
Proof. destruct s. unfold record. cbn. by rewrite app_nil_r. Qed.

Lemma bind_run {A B} (m : M A) (k : A -> M B) s :
  FS.bind m k s
  = match m s with
    | (Ok a, s') => k a s'
    | (Raised e, s') => (Raised e, s')
    end.
Proof. reflexivity. Qed.

Lemma exists_run p s : exists_ p s = (Ok (exists_in (files s) p), s).
Proof. reflexivity. Qed.


Lemma eprint_run msg s : eprint msg s = (Ok tt, record s [EStderr msg]).
Proof. reflexivity. Qed.

Lemma print_run msg s : print msg s = (Ok tt, record s [EStdout msg]).
Proof. reflexivity. Qed.

Lemma read_json_run W p s :
  read_json W p s
  = (match files s !! resolve (files s) p with
     | Some File => load W p
     | _ => Raised OSError
     end, s).
Proof.
  unfold read_json, FS.bind, get_files.
  destruct (files s !! resolve (files s) p) as [[]|]; try done.
  by destruct (load W p).
Qed.

Lemma mkdir_p_run p s :
  mkdir_p p s
  = if blocked (files s) p then (Raised OSError, s)
    else (Ok tt, {| files := add_dirs (files s) p;
                    events := events s ++ [EMkdir p] |}).
Proof.
  unfold mkdir_p, FS.bind, get_files. by destruct (blocked (files s) p).
Qed.

Lemma write_file_run p f s :
  write_file p f s
  = if writable (files s) p
    then (Ok tt, {| files := <[p := File]> (files s);
                    events := events s ++ [EWrite p f] |})
    else (Raised OSError, s).
Proof.
  unfold write_file, FS.bind, get_files. by destruct (writable (files s) p).
Qed.

Lemma rmtree_run p s :
  rmtree p s
  = match files s !! p with
    | Some Dir => (Ok tt, {| files := remove_tree (files s) p;
                             events := events s ++ [ERmtree p] |})
    | _ => (Raised OSError, s)
    end.
Proof.
  unfold rmtree, FS.bind, get_files. by destruct (files s !! p) as [[]|].
Qed.

(** The guarded read of both [generate_test_file]s. *)
Lemma load_or_warn_run W json_path s :
  load_or_warn W json_path s
  = match read_json W json_path s with
    | (Ok data, _) => (Ok (Some data), s)
    | (Raised e, _) =>
        if load_handler_catches e
        then (Ok None, record s [EStderr (WarnCouldNotParse json_path e)])
        else (Raised e, s)
    end.
Proof.
  unfold load_or_warn, try_except. rewrite bind_run, read_json_run.
  destruct (match files s !! resolve (files s) json_path with
            | Some File => load W json_path
            | _ => Raised OSError
            end) as [data|e]; [done|].
  by destruct (load_handler_catches e).
Qed.

End Runs.

(** ** The test-unit compiler *)

Section Compiler.

Variable W : world.
Variable U : unicode_tables.






(** *** Soft failures *)





End Compiler.

(** ** A small repository to run the scripts on *)



Example demo_simple_run :
  let run :=
    GenerateSpecTests.generate_loop Demo.world ascii_tables Demo.output_root
      Demo.state_root Demo.repo_root
      [Demo.top_json; Demo.list_json; Demo.one_json; Demo.broken_json; Demo.two_json]
      Demo.start in
  run.1 = Ok 5%nat /\
  map (fun w => (relative_to w.1 Demo.output_root, root_import w.2))
    (written (events run.2))
  = [ (Some [str "top.zig"], str "../root.zig");
      (Some [str "stA"; str "one.zig"], str "../../root.zig");
      (Some [str "stA"; str "sub"; str "two.zig"], str "../../../root.zig") ].
Proof. vm_compute. split; reflexivity. Qed.




(** ** Paths outside the fixture root *)

Section StrayPaths.

Variable W : world.
Variable U : unicode_tables.

Lemma scan_loop_raises repo_root found json_file s :
  json_file ∈ found ->
  relative_to json_file repo_root = None ->
  GenerateTests.scan_loop repo_root found s = (Raised ValueError, s).
Proof.
  intros Hin Hrel. induction found as [|f found IH]; [by apply elem_of_nil in Hin|].
  cbn [GenerateTests.scan_loop]. rewrite bind_run.
  destruct (relative_to f repo_root) as [rel|] eqn:E; [|done].
  cbn [of_option ret]. rewrite bind_run.
  apply elem_of_cons in Hin as [->|Hin]; [congruence|].
  by rewrite (IH Hin).
Qed.

Lemma scan_loop_ok repo_root found s l s' :
  GenerateTests.scan_loop repo_root found s = (Ok l, s') ->
  map fst l = found /\ s' = s.
Proof.
  revert l s'. induction found as [|f found IH]; intros l s'.
  - cbn. by intros [= <- <-].
  - cbn [GenerateTests.scan_loop]. rewrite bind_run.
    destruct (relative_to f repo_root) as [rel|]; [|done].
    cbn [of_option ret]. rewrite bind_run.
    destruct (GenerateTests.scan_loop repo_root found s) as [[l0|e] s0] eqn:E;
      [|done].
    destruct (IH l0 s0 eq_refl) as [<- ->]. by intros [= <- <-].
Qed.

End StrayPaths.

(** C8 as stated fails: a malformed file outside the fixture root is skipped
    like any other malformed file; the compiler returns 0 after a warning
    and raises nothing. *)
Lemma stray_malformed_counterexample :
  relative_to Demo.stray_broken_json Demo.state_root = None /\
  GenerateSpecTests.generate_test_file Demo.world ascii_tables Demo.stray_broken_json
    Demo.output_root Demo.state_root Demo.repo_root Demo.start
  = (Ok O,
     record Demo.start
       [EStderr (WarnCouldNotParse Demo.stray_broken_json JSONDecodeError)]).
Proof. split; [vm_compute; reflexivity | by_vm]. Qed.

(** C8, amended: a path outside the fixture root is fatal once the file has
    been read as a JSON mapping.  The single-source compiler then raises
    [ValueError] before it writes anything, its malformed-input handler is
    not involved, and the loop of [main] stops there; in the multi-source
    generator the scan of a source raises [ValueError] as soon as one file
    found is not below the repository root. *)
Theorem stray_path_is_fatal (W : world) (U : unicode_tables) (s : state)
    (json_path specs_root : path) (keys : list pystr) :
  files s !! resolve (files s) json_path = Some File ->
  load W json_path = Ok (PyDict keys) ->
  relative_to json_path specs_root = None ->
  (forall output_dir repo_root,
      GenerateSpecTests.generate_test_file W U json_path output_dir specs_root
        repo_root s
      = (Raised ValueError, s)) /\
  (forall output_root repo_root rest,
      GenerateSpecTests.generate_loop W U output_root specs_root repo_root
        (json_path :: rest) s
      = (Raised ValueError, s)) /\
  (forall found,
      json_path ∈ found ->
      GenerateTests.scan_loop specs_root found s = (Raised ValueError, s)).
Proof.
  intros Hfile Hload Hrel.
  assert (forall output_dir repo_root,
             GenerateSpecTests.generate_test_file W U json_path output_dir
               specs_root repo_root s = (Raised ValueError, s)) as Hgen.
  { intros. unfold GenerateSpecTests.generate_test_file.
    rewrite bind_run, load_or_warn_run, read_json_run, Hfile, Hload.
    by rewrite bind_run, Hrel. }
  split; [exact Hgen|]. split.
  - intros. cbn [GenerateSpecTests.generate_loop]. by rewrite bind_run, Hgen.
  - intros found Hin. by apply (scan_loop_raises specs_root found json_path).
Qed.

Lemma stray_path_is_fatal_witness :
  GenerateSpecTests.generate_test_file Demo.world ascii_tables Demo.stray_json
    Demo.output_root Demo.state_root Demo.repo_root Demo.start
  = (Raised ValueError, Demo.start).
Proof.
  exact (proj1 (stray_path_is_fatal Demo.world ascii_tables Demo.start
                  Demo.stray_json Demo.state_root [str "add"]
                  eq_refl eq_refl eq_refl)
           Demo.output_root Demo.repo_root).
Defined.

(** ** Which files are compiled *)

Section Scanner.

(** What [rglob] finds: the entries strictly below the (resolved) root
    whose name ends in [.json]. *)
Lemma rglob_json_spec (m : gmap path node) (root f : path) :
  f ∈ rglob_json m root <->
  exists q, is_Some (m !! q) /\
            below (resolve m root) q = true /\
            is_json_name q = true /\
            f = root ++ drop (length (resolve m root)) q.
Proof.
  unfold rglob_json. rewrite list_elem_of_fmap. split.
  - intros (q & -> & Hq). apply list_elem_of_filter in Hq as [Hq Hin].
    apply andb_prop in Hq as [Hb Hj].
    apply list_elem_of_fmap in Hin as ([q' n] & -> & Hin).
    apply elem_of_map_to_list in Hin. exists q'. cbn [fst] in *.
    repeat split; done.
  - intros (q & [n Hn] & Hb & Hj & ->). exists q. split; [done|].
    apply list_elem_of_filter. split; [by rewrite Hb, Hj|].
    apply list_elem_of_fmap. exists (q, n). split; [done|].
    by apply elem_of_map_to_list.
Qed.

(** The single-source generator compiles what [rglob] finds, except the
    paths with a [.meta] part. *)
Lemma find_json_files_spec (m : gmap path node) (specs_root f : path) :
  f ∈ GenerateSpecTests.find_json_files m specs_root <->
  f ∈ rglob_json m specs_root /\ str ".meta" ∉ f.
Proof.
  unfold GenerateSpecTests.find_json_files. rewrite list_elem_of_filter. tauto.
Qed.

(** The multi-source generator compiles everything [rglob] finds. *)
Lemma scan_test_directory_all base_path source_name repo_root s l s' :
  exists_in (files s) base_path = true ->
  GenerateTests.scan_test_directory base_path source_name repo_root s = (Ok l, s') ->
  map fst l = rglob_json (files s) base_path /\ s' = s.
Proof.
  intros He. unfold GenerateTests.scan_test_directory.
  rewrite bind_run, exists_run, He. cbn [negb]. rewrite bind_run.
  cbn [get_files]. apply scan_loop_ok.
Qed.

End Scanner.

Lemma elem_of_by_compute {A} `{EqDecision A} (x : A) (l : list A) :
  bool_decide (x ∈ l) = true -> x ∈ l.
Proof. apply bool_decide_eq_true_1. Qed.

Lemma not_elem_of_by_compute {A} `{EqDecision A} (x : A) (l : list A) :
  bool_decide (x ∈ l) = false -> x ∉ l.
Proof. apply bool_decide_eq_false_1. Qed.

(** C6 (violated by the multi-source generator): on a fixture root that holds
    [.meta/index.json], [scan_test_directory] returns that file with the
    others and [main] of [generate_tests.py] compiles it into
    [.../state_tests/.meta/index.zig], while [main] of [generate_spec_tests.py] leaves it
    out as its comment says. *)
Theorem multi_source_compiles_metadata :
  str ".meta" ∈ Demo.meta_json /\
  GenerateTests.scan_test_directory Demo.state_root (str "execution_specs")
    Demo.repo_root Demo.start
  = (Ok (map (fun f => (f, to_str (drop (length Demo.repo_root) f)))
           (rglob_json Demo.tree Demo.state_root)), Demo.start) /\
  Demo.meta_json ∈ rglob_json Demo.tree Demo.state_root /\
  (let run := GenerateTests.main Demo.world ascii_tables Demo.repo_root Demo.start in
   run.1 = Ok (3%nat, 6%nat) /\
   (Demo.repo_root ++
      parse (str "test/specs/generated/execution-specs/tests/eest/static/state_tests/.meta/index.zig"))
     ∈ map fst (written (events run.2))) /\
  (let run :=
     GenerateSpecTests.main Demo.world ascii_tables GenerateSpecTests.State
       Demo.repo_root Demo.start in
   run.1 = Ok 5%nat /\
   (Demo.meta_json ∉ GenerateSpecTests.find_json_files Demo.tree Demo.state_root) /\
   (Demo.output_root // ".meta" // "index.zig")
     ∉ map fst (written (events run.2))).
Proof.
  split; [|split; [|split; [|split]]].
  - apply elem_of_by_compute. vm_compute. reflexivity.
  - by_vm.
  - apply elem_of_by_compute. vm_compute. reflexivity.
  - split; [vm_compute; reflexivity|].
    apply elem_of_by_compute. vm_compute. reflexivity.
  - split; [vm_compute; reflexivity|].
    split; apply not_elem_of_by_compute; vm_compute; reflexivity.
Qed.

(** ** What a run adds to the log *)

Section Growth.

Variable P : event -> Prop.

Lemma emits_only_ret {A} (a : A) : emits_only P (ret a).
Proof. intros s. exists []. by rewrite app_nil_r. Qed.

Lemma emits_only_raise {A} (e : exn) : emits_only P (@raise A e).
Proof. intros s. exists []. by rewrite app_nil_r. Qed.

Lemma emits_only_get_files : emits_only P get_files.
Proof. intros s. exists []. by rewrite app_nil_r. Qed.

Lemma emits_only_set_files m : emits_only P (set_files m).
Proof. intros s. exists []. by rewrite app_nil_r. Qed.

Lemma emits_only_emit e : P e -> emits_only P (emit e).
Proof. intros He s. exists [e]. split; [done | by constructor]. Qed.

Lemma emits_only_bind {A B} (m : M A) (k : A -> M B) :
  emits_only P m -> (forall a, emits_only P (k a)) -> emits_only P (FS.bind m k).
Proof.
  intros Hm Hk s. unfold FS.bind. destruct (Hm s) as (l1 & E1 & F1).
  destruct (m s) as [[a|e] s1]; cbn [snd] in *.
  - destruct (Hk a s1) as (l2 & E2 & F2). exists (l1 ++ l2).
    rewrite E2, E1, app_assoc. split; [done | by apply Forall_app].
  - by exists l1.
Qed.

Lemma emits_only_try_except {A} (m : M A) (h : exn -> option (M A)) :
  emits_only P m -> (forall e hd, h e = Some hd -> emits_only P hd) ->
  emits_only P (try_except m h).
Proof.
  intros Hm Hh s. unfold try_except. destruct (Hm s) as (l1 & E1 & F1).
  destruct (m s) as [[a|e] s1]; cbn [snd] in *; [by exists l1|].
  destruct (h e) as [hd|] eqn:Eh; [|by exists l1].
  destruct (Hh e hd Eh s1) as (l2 & E2 & F2). exists (l1 ++ l2).
  rewrite E2, E1, app_assoc. split; [done | by apply Forall_app].
Qed.

End Growth.

Ltac emits_step :=
  first
    [ apply emits_only_ret | apply emits_only_raise | apply emits_only_get_files
    | apply emits_only_set_files | apply emits_only_emit
    | apply emits_only_bind; [| intros ?]
    | apply emits_only_try_except;
        [| intros [] ? [= <-] ]
    | match goal with
      | |- emits_only _ (match ?x with _ => _ end) => destruct x
      | |- emits_only _ (if ?x then _ else _) => destruct x
      end ].

Ltac solve_emits := repeat emits_step; try done.

Section PrimitiveGrowth.
Variable P : event -> Prop.
Variable W : world.

Lemma emits_only_exists p : emits_only P (exists_ p).
Proof. unfold exists_. solve_emits. Qed.
Lemma emits_only_has_json p : emits_only P (has_json p).
Proof. unfold has_json. solve_emits. Qed.
Lemma emits_only_rmtree p : P (ERmtree p) -> emits_only P (rmtree p).
Proof. intros. unfold rmtree. solve_emits. Qed.
Lemma emits_only_mkdir_p p : P (EMkdir p) -> emits_only P (mkdir_p p).
Proof. intros. unfold mkdir_p. solve_emits. Qed.
Lemma emits_only_symlink src dst : P (ESymlink src dst) -> emits_only P (symlink W src dst).
Proof. intros. unfold symlink. solve_emits. Qed.
Lemma emits_only_copytree src dst : P (ECopytree src dst) -> emits_only P (copytree src dst).
Proof. intros. unfold copytree. solve_emits. Qed.
Lemma emits_only_extractall tar dest : P (EExtract tar dest) -> emits_only P (extractall W tar dest).
Proof. intros. unfold extractall. solve_emits. Qed.
Lemma emits_only_rename src dst : P (ERename src dst) -> emits_only P (rename src dst).
Proof. intros. unfold rename. solve_emits. Qed.
Lemma emits_only_print msg : P (EStdout msg) -> emits_only P (print msg).
Proof. intros. unfold print. solve_emits. Qed.
Lemma emits_only_eprint msg : P (EStderr msg) -> emits_only P (eprint msg).
Proof. intros. unfold eprint. solve_emits. Qed.
End PrimitiveGrowth.

Ltac emits_prim :=
  first
    [ apply emits_only_exists | apply emits_only_has_json
    | apply emits_only_rmtree | apply emits_only_mkdir_p
    | apply emits_only_symlink | apply emits_only_copytree
    | apply emits_only_extractall | apply emits_only_rename
    | apply emits_only_print | apply emits_only_eprint ].

Ltac solve_emits_fs := repeat first [emits_prim | emits_step]; try done.

(** ** The file-system operations *)

Section FileSystemFacts.

Lemma remove_tree_lookup (m : gmap path node) (p q : path) :
  remove_tree m p !! q = if is_prefix_of p q then None else m !! q.
Proof.
  unfold remove_tree. destruct (is_prefix_of p q) eqn:E.
  - apply map_lookup_filter_None. right. intros n _. cbn. by rewrite E.
  - destruct (m !! q) as [n|] eqn:Em.
    + apply map_lookup_filter_Some. by split.
    + apply map_lookup_filter_None. by left.
Qed.

Lemma is_prefix_of_refl (p : path) : is_prefix_of p p = true.
Proof. rewrite <- (app_nil_r p) at 2. apply is_prefix_of_app. Qed.



(** [add_dirs] only fills in missing directories. *)
Lemma add_dirs_lookup (m : gmap path node) (p q : path) :
  add_dirs m p !! q
  = match m !! q with
    | Some n => Some n
    | None => if decide (q ∈ prefixes p) then Some Dir else None
    end.
Proof.
  unfold add_dirs. induction (prefixes p) as [|x l IH].
  - cbn [foldr]. destruct (m !! q); [done|]. by rewrite decide_False by apply not_elem_of_nil.
  - cbn [foldr]. set (acc := foldr _ m l) in *.
    assert ((if decide (q ∈ x :: l) then Some Dir else None)
            = if decide (x = q) then Some Dir
              else if decide (q ∈ l) then Some Dir else None) as ->.
    { destruct (decide (x = q)) as [->|Hne].
      - by rewrite decide_True by left.
      - destruct (decide (q ∈ l)) as [Hin|Hnin].
        + by rewrite decide_True by (by right).
        + rewrite decide_False; [done|]. intros Hin.
          apply elem_of_cons in Hin as [|]; done. }
    destruct (acc !! x) as [nx|] eqn:Ex.
    + rewrite IH. destruct (m !! q) as [n|] eqn:Em; [done|].
      destruct (decide (x = q)) as [->|Hne]; [|done].
      rewrite IH in Ex. by destruct (decide (q ∈ l)).
    + destruct (decide (x = q)) as [->|Hne].
      * rewrite lookup_insert_eq. rewrite IH in Ex. by destruct (m !! q).
      * rewrite lookup_insert_ne by done. by rewrite IH.
Qed.




End FileSystemFacts.

(** ** The fixture acquirers *)

Section Acquirers.

Variable W : world.

Lemma exists_in_dir (m : gmap path node) (p : path) :
  m !! p = Some Dir -> exists_in m p = true.
Proof. intros H. destruct p; [done|]. unfold exists_in. by rewrite H. Qed.

(** *** General state tests *)

(** The three ways [ensure_general_state_tests] can go. *)
Lemma ensure_general_state_tests_run repo_root s :
  let fixtures_dir := repo_root // "ethereum-tests" // "GeneralStateTests" in
  let archive_path :=
    repo_root // "ethereum-tests" // "fixtures_general_state_tests.tgz" in
  GenerateTests.ensure_general_state_tests W repo_root s
  = if exists_in (files s) fixtures_dir then (Ok tt, s)
    else if exists_in (files s) archive_path
    then match archive W archive_path with
         | Some entries =>
             (Ok tt,
              {| files := graft (files s) (repo_root // "ethereum-tests") entries;
                 events := events s ++
                   [EStdout (MsgExtracting archive_path fixtures_dir);
                    EExtract archive_path (repo_root // "ethereum-tests")] |})
         | None =>
             (Raised OSError,
              record s [EStdout (MsgExtracting archive_path fixtures_dir)])
         end
    else (Ok tt, record s [EStderr (WarnNoGeneralStateTests fixtures_dir archive_path)]).
Proof.
  intros fixtures_dir archive_path.
  unfold GenerateTests.ensure_general_state_tests.
  fold fixtures_dir. fold archive_path.
  rewrite bind_run, exists_run.
  destruct (exists_in (files s) fixtures_dir); [done|].
  rewrite bind_run, exists_run.
  destruct (exists_in (files s) archive_path); cbn [negb]; [|by rewrite eprint_run].
  rewrite bind_run, print_run. unfold extractall, FS.bind, get_files.
  cbn [files record events].
  destruct (archive W archive_path); [|done].
  unfold emit, set_files, record. cbn [files events]. by rewrite <- app_assoc.
Qed.

Lemma general_state_noop repo_root s :
  exists_in (files s) (repo_root // "ethereum-tests" // "GeneralStateTests") = true ->
  GenerateTests.ensure_general_state_tests W repo_root s = (Ok tt, s).
Proof. intros H. rewrite ensure_general_state_tests_run. by rewrite H. Qed.


(** *** Blockchain fixtures *)





End Acquirers.

(** ** A repository without fixtures, to run the acquirers on *)

(** C9: when the [GeneralStateTests] directory exists, whatever it holds,
    [ensure_general_state_tests] returns at once: the files and the log are
    as before, so nothing is extracted, and this stays so however often the
    call is repeated. *)
Theorem existing_directory_blocks_extraction (W : world) (repo_root : path)
    (s : state) :
  exists_in (files s) (repo_root // "ethereum-tests" // "GeneralStateTests") = true ->
  GenerateTests.ensure_general_state_tests W repo_root s = (Ok tt, s) /\
  forall n,
    Nat.iter n (fun st => (GenerateTests.ensure_general_state_tests W repo_root st).2) s
    = s.
Proof.
  intros He. split; [by apply general_state_noop|].
  induction n as [|n IH]; [done|]. rewrite Nat.iter_succ, IH.
  by rewrite general_state_noop.
Qed.

Lemma existing_directory_blocks_extraction_witness :
  rglob_json (files DemoAcquire.stuck) DemoAcquire.general_dir = [] /\
  exists_in (files DemoAcquire.stuck) DemoAcquire.general_tar = true /\
  GenerateTests.ensure_general_state_tests DemoAcquire.world DemoAcquire.repo_root
    DemoAcquire.stuck
  = (Ok tt, DemoAcquire.stuck).
Proof.
  split; [vm_compute; reflexivity|]. split; [vm_compute; reflexivity|].
  apply (existing_directory_blocks_extraction DemoAcquire.world
           DemoAcquire.repo_root DemoAcquire.stuck).
  vm_compute. reflexivity.
Defined.






(* ===================================================================== *)
(** * Further properties of the code *)
(* ===================================================================== *)

(** ** The sanitizers in one pass *)

Section OnePass.

Lemma replace_char_map a b s :
  replace [a] [b] s = map (fun c => if c =? a then b else c) s.
Proof.
  unfold replace. induction s as [|c s IH]; [done|].
  cbn [replace_from starts_with length Nat.sub map app]. rewrite andb_true_r, IH.
  rewrite (N.eqb_sym a c). by destruct (c =? a).
Qed.

Lemma squeeze_cons c s :
  squeeze (c :: s)
  = if (c =? underscore) && starts_underscore s then squeeze s else c :: squeeze s.
Proof. destruct s as [|d s]; [|done]. cbn. by rewrite andb_false_r. Qed.

(** Replacing a doubled character that ends up as an underscore anyway does
    not change the squeezed result. *)
Lemma squeeze_replace_pair (k : N -> N) (a : N) s :
  k a = underscore -> k underscore = underscore ->
  squeeze (map k (replace_from [a; a] [underscore] 0 s)) = squeeze (map k s) /\
  starts_underscore (map k (replace_from [a; a] [underscore] 0 s))
  = starts_underscore (map k s).
Proof.
  intros Ha Hu. remember (length s) as n eqn:Hn.
  revert s Hn. induction (lt_wf n) as [n _ IH]. intros s ->.
  destruct s as [|c s]; [done|].
  cbn [replace_from]. destruct (starts_with [a; a] (c :: s)) eqn:E.
  - cbn [starts_with] in E. destruct s as [|d s]; [by rewrite andb_false_r in E|].
    apply andb_prop in E as [E1 E2]. apply andb_prop in E2 as [E2 _].
    apply N.eqb_eq in E1, E2. subst c d.
    cbn [length Nat.sub app replace_from map].
    destruct (IH (length s) ltac:(cbn; lia) s eq_refl) as [IH1 IH2].
    rewrite Ha, Hu.
    rewrite (squeeze_cons underscore (underscore :: map k s)).
    cbn [starts_underscore]. rewrite N.eqb_refl. cbn [andb].
    rewrite !squeeze_cons. by rewrite IH1, IH2.
  - destruct (IH (length s) ltac:(cbn; lia) s eq_refl) as [IH1 IH2].
    cbn [map]. rewrite !squeeze_cons. cbn [starts_underscore].
    by rewrite IH1, IH2.
Qed.

Lemma squeeze_no_pair s :
  contains (str "__") s = false -> squeeze s = s.
Proof.
  change (str "__") with [underscore; underscore].
  induction s as [|c s IH]; [done|]. intros H.
  cbn [contains] in H. apply orb_false_elim in H as [H1 H2].
  rewrite squeeze_cons, (IH H2). destruct s as [|d s]; [by rewrite andb_false_r|].
  cbn [starts_with] in H1. rewrite andb_true_r in H1.
  cbn [starts_underscore]. rewrite (N.eqb_sym c), (N.eqb_sym d). by rewrite H1.
Qed.

(** The [while] loop computes [squeeze]. *)
Lemma collapse_loop_squeeze fuel s :
  (length s <= fuel)%nat -> collapse_loop fuel s = squeeze s.
Proof.
  revert s. induction fuel as [|fuel IH]; intros s Hl.
  - destruct s; [done | cbn in Hl; lia].
  - cbn [collapse_loop]. destruct (contains (str "__") s) eqn:E.
    + rewrite IH by (pose proof (replace_uu_shorter s E); lia).
      pose proof (squeeze_replace_pair (fun c => c) underscore s eq_refl eq_refl)
        as [H _].
      rewrite !map_id in H. exact H.
    + by rewrite squeeze_no_pair.
Qed.

Variable U : unicode_tables.
Hypothesis HU : ascii_faithful U.

Lemma keep_alnum_replace_char p s :
  p < 128 -> ascii_isalnum p = false ->
  keep_alnum U (replace [p] [underscore] s) = keep_alnum U s.
Proof.
  intros Hp Ha. rewrite replace_char_map. unfold keep_alnum. rewrite map_map.
  apply map_ext. intros c. destruct (c =? p) eqn:E; [|done].
  apply N.eqb_eq in E as ->. destruct (HU p Hp) as [-> _]. rewrite Ha.
  cbn [orb]. rewrite N.eqb_refl, orb_true_r.
  destruct (p =? underscore) eqn:E; [|done]. by apply N.eqb_eq in E.
Qed.

Lemma keep_alnum_colon : (if isalnum U 58 || (58 =? underscore) then 58 else underscore) = underscore.
Proof. destruct (HU 58) as [-> _]; [lia|]. reflexivity. Qed.

Lemma keep_alnum_underscore :
  (if isalnum U underscore || (underscore =? underscore) then underscore else underscore)
  = underscore.
Proof. by destruct (isalnum U underscore || (underscore =? underscore)). Qed.

(** The simpler sanitizer is one character map followed by the prefix: its
    three literal replacements change nothing that the map does not. *)
Lemma simple_sanitize_one_pass x :
  GenerateSpecTests.sanitize_test_name U x = prefix_digit U (keep_alnum U x).
Proof.
  unfold GenerateSpecTests.sanitize_test_name. eval_str.
  by rewrite !keep_alnum_replace_char by (lia || reflexivity).
Qed.

(** The richer sanitizer is the character map, the squeeze and the prefix. *)
Lemma rich_sanitize_one_pass x :
  GenerateTests.sanitize_test_name U x
  = prefix_digit U (squeeze (keep_alnum U x)).
Proof.
  unfold GenerateTests.sanitize_test_name. eval_str.
  rewrite collapse_loop_squeeze by lia.
  rewrite !keep_alnum_replace_char by (lia || reflexivity).
  change (replace [58; 58] [95]) with (replace_from [58; 58] [underscore] 0).
  unfold keep_alnum.
  destruct (squeeze_replace_pair
              (fun c => if isalnum U c || (c =? underscore) then c else underscore)
              58 (replace [32] [95] (replace [46] [95] (replace [45] [95] x)))
              keep_alnum_colon keep_alnum_underscore) as [-> _].
  fold (keep_alnum U (replace [32] [95] (replace [46] [95] (replace [45] [95] x)))).
  by rewrite !keep_alnum_replace_char by (lia || reflexivity).
Qed.

End OnePass.

(** ** The shape of sanitized names *)


Section Shape.

Variable U : unicode_tables.
Hypothesis HU : ascii_faithful U.

Lemma prefix_digit_no_digit s : starts_with_digit U (prefix_digit U s) = false.
Proof.
  destruct s as [|c s]; [done|]. rewrite prefix_digit_cons.
  destruct (isdigit U c) eqn:E; [|exact E].
  change (str "test_" ++ c :: s) with (116 :: (str "est_" ++ c :: s)).
  cbn [starts_with_digit]. destruct (HU 116) as (_ & -> & _); [lia | reflexivity].
Qed.

Lemma prefix_digit_fixed s : starts_with_digit U s = false -> prefix_digit U s = s.
Proof. destruct s as [|c s]; [done|]. cbn. by intros ->. Qed.

Lemma prefix_digit_nil s : prefix_digit U s = [] <-> s = [].
Proof.
  split; [|by intros ->]. destruct s as [|c s]; [done|].
  rewrite prefix_digit_cons. by destruct (isdigit U c).
Qed.

Lemma squeeze_nil s : squeeze s = [] <-> s = [].
Proof.
  split; [|by intros ->]. induction s as [|c s IH]; [done|].
  rewrite squeeze_cons. destruct ((c =? underscore) && starts_underscore s) eqn:E; [|done].
  intros H. apply IH in H. subst s. by rewrite andb_false_r in E.
Qed.

Lemma squeeze_replicate n : squeeze (replicate (S n) underscore) = [underscore].
Proof.
  induction n as [|n IH]; [done|].
  change (replicate (S (S n)) underscore)
    with (underscore :: replicate (S n) underscore).
  rewrite squeeze_cons. cbn [replicate starts_underscore]. rewrite N.eqb_refl.
  cbn [andb]. exact IH.
Qed.

Lemma keep_alnum_separators x :
  Forall (fun c => isalnum U c = false) x ->
  keep_alnum U x = replicate (length x) underscore.
Proof.
  induction 1 as [|c x Hc _ IH]; [done|]. unfold keep_alnum in *.
  cbn [map length replicate]. rewrite IH, Hc. cbn [orb].
  destruct (c =? underscore) eqn:E; [|done]. by apply N.eqb_eq in E as ->.
Qed.

End Shape.

(** ** Decimal suffixes *)

Section Digits.

Lemma str_inj s1 s2 : str s1 = str s2 -> s1 = s2.
Proof.
  unfold str. intros H.
  rewrite <- (string_of_list_ascii_of_string s1),
          <- (string_of_list_ascii_of_string s2).
  f_equal. revert H. generalize (list_ascii_of_string s2).
  induction (list_ascii_of_string s1) as [|a l IH]; intros [|b l']; try done.
  cbn [map]. intros [= Hab Hl]. f_equal; [|by apply IH].
  rewrite <- (ascii_N_embedding a), <- (ascii_N_embedding b). by rewrite Hab.
Qed.

Lemma to_uint_not_nil n : Nat.to_uint n <> Decimal.Nil.
Proof.
  intros H. pose proof (DecimalNat.Unsigned.of_to n) as E. rewrite H in E.
  cbn in E. subst n. discriminate H.
Qed.

Lemma string_of_to_uint n :
  NilZero.string_of_uint (Nat.to_uint n) = NilEmpty.string_of_uint (Nat.to_uint n).
Proof.
  pose proof (to_uint_not_nil n) as Hn. unfold NilZero.string_of_uint.
  by destruct (Nat.to_uint n).
Qed.

Lemma str_of_nat_inj n m : str_of_nat n = str_of_nat m -> n = m.
Proof.
  unfold str_of_nat. intros H. apply str_inj in H.
  rewrite !string_of_to_uint in H.
  apply (f_equal NilEmpty.uint_of_string) in H. rewrite !NilEmpty.usu in H.
  injection H as H. by apply DecimalNat.Unsigned.to_uint_inj.
Qed.

Lemma digits_no_underscore d : underscore ∉ str (NilEmpty.string_of_uint d).
Proof.
  induction d; cbn [NilEmpty.string_of_uint]; unfold str in *;
    cbn [list_ascii_of_string map];
    try (by apply not_elem_of_nil);
    (intros Hin; apply elem_of_cons in Hin as [Hin|Hin]; [discriminate|done]).
Qed.

Lemma str_of_nat_no_underscore n : underscore ∉ str_of_nat n.
Proof. unfold str_of_nat. rewrite string_of_to_uint. apply digits_no_underscore. Qed.

Lemma str_of_nat_nonempty n : str_of_nat n <> [].
Proof.
  unfold str_of_nat. rewrite string_of_to_uint.
  pose proof (to_uint_not_nil n) as Hn. by destruct (Nat.to_uint n).
Qed.

(** A suffixed identifier splits at its last underscore. *)
Lemma suffix_split (a a' d d' : pystr) :
  underscore ∉ d -> underscore ∉ d' ->
  a ++ underscore :: d = a' ++ underscore :: d' -> a = a' /\ d = d'.
Proof.
  intros Hd Hd'. revert a'. induction a as [|c a IH]; intros a' H.
  - destruct a' as [|c' a']; [by injection H|].
    cbn [app] in H. injection H as <- H. exfalso. apply Hd. rewrite H.
    apply elem_of_app. right. left.
  - destruct a' as [|c' a'].
    + cbn [app] in H. injection H as -> H. exfalso. apply Hd'. rewrite <- H.
      apply elem_of_app. right. left.
    + cbn [app] in H. injection H as -> H. destruct (IH a' H) as [-> ->]. done.
Qed.

End Digits.

(** ** When the identifiers of a file are distinct *)

Section Distinct.

Variable sanitize : pystr -> pystr.

Lemma occurrences_app base l1 l2 :
  occurrences sanitize base (l1 ++ l2)
  = (occurrences sanitize base l1 + occurrences sanitize base l2)%nat.
Proof. unfold occurrences. by rewrite filter_app, length_app. Qed.

Lemma occurrences_zero base l :
  (forall k, k ∈ l -> sanitize k <> base) -> occurrences sanitize base l = O.
Proof.
  intros H. unfold occurrences. induction l as [|k l IH]; [done|].
  rewrite filter_cons_False by (apply H; left). apply IH.
  intros k' Hk'. apply H. by right.
Qed.

(** A later key with the same base has seen more keys of that base. *)
Lemma occurrences_grow keys i j k :
  (i < j)%nat -> keys !! i = Some k ->
  (occurrences sanitize (sanitize k) (take i keys)
   < occurrences sanitize (sanitize k) (take j keys))%nat.
Proof.
  intros Hij Hi.
  assert (take j keys = take i keys ++ k :: take (j - S i) (drop (S i) keys)) as ->.
  { rewrite <- (take_drop_middle keys i k Hi) at 1.
    rewrite take_app_ge by (rewrite length_take; apply lookup_lt_Some in Hi; lia).
    rewrite length_take_le by (apply lookup_lt_Some in Hi; lia).
    replace (j - i)%nat with (S (j - S i)) by lia. done. }
  rewrite occurrences_app. unfold occurrences at 3.
  rewrite filter_cons_True by done. cbn [length]. lia.
Qed.

Lemma suffixed_inj base n m : suffixed base n = suffixed base m -> n = m.
Proof.
  destruct n as [|n], m as [|m]; cbn [suffixed]; [done| | |].
  - intros H. apply (f_equal length) in H. rewrite !length_app in H.
    cbn in H. lia.
  - intros H. apply (f_equal length) in H. rewrite !length_app in H.
    cbn in H. lia.
  - intros H. apply app_inv_head in H. change (str "_") with [underscore] in H.
    injection H as H. by apply str_of_nat_inj in H.
Qed.

(** The identifiers are pairwise distinct as soon as no key's base is the
    suffixed identifier of another base. *)
Lemma unit_names_NoDup keys :
  (forall k k' n, k ∈ keys -> k' ∈ keys ->
                  sanitize k' <> sanitize k ++ str "_" ++ str_of_nat (S n)) ->
  NoDup (unit_names sanitize ∅ keys).
Proof.
  intros Hfree. apply NoDup_alt. intros i j nm Hi Hj.
  assert (forall i j ki kj,
             (i < j)%nat -> keys !! i = Some ki -> keys !! j = Some kj ->
             suffixed (sanitize ki) (occurrences sanitize (sanitize ki) (take i keys))
             <> suffixed (sanitize kj) (occurrences sanitize (sanitize kj) (take j keys)))
    as Hlt.
  { clear i j nm Hi Hj. intros i j ki kj Hij Hi Hj Heq.
    assert (ki ∈ keys) as Hki by (by eapply list_elem_of_lookup_2).
    assert (kj ∈ keys) as Hkj by (by eapply list_elem_of_lookup_2).
    destruct (occurrences sanitize (sanitize ki) (take i keys)) as [|ci] eqn:Eci;
      destruct (occurrences sanitize (sanitize kj) (take j keys)) as [|cj] eqn:Ecj;
      cbn [suffixed] in Heq.
    - pose proof (occurrences_grow keys i j ki Hij Hi) as Hg.
      rewrite Heq, Ecj in Hg. lia.
    - by apply (Hfree kj ki cj).
    - symmetry in Heq. by apply (Hfree ki kj ci).
    - change (str "_") with [underscore] in Heq. cbn [app] in Heq.
      apply suffix_split in Heq as [Hb Hd];
        [|apply str_of_nat_no_underscore..].
      apply str_of_nat_inj in Hd. injection Hd as ->.
      pose proof (occurrences_grow keys i j ki Hij Hi) as Hg.
      rewrite Hb, Ecj in Hg. rewrite Hb in Eci. lia. }
  assert (is_Some (keys !! i)) as [ki Hki].
  { apply lookup_lt_is_Some. rewrite <- (unit_names_length sanitize ∅).
    by eapply lookup_lt_Some. }
  assert (is_Some (keys !! j)) as [kj Hkj].
  { apply lookup_lt_is_Some. rewrite <- (unit_names_length sanitize ∅).
    by eapply lookup_lt_Some. }
  pose proof (unit_names_lookup sanitize [] ∅ keys i ki (tracks_empty sanitize) Hki)
    as Hni.
  pose proof (unit_names_lookup sanitize [] ∅ keys j kj (tracks_empty sanitize) Hkj)
    as Hnj.
  cbn [app] in Hni, Hnj. rewrite Hni in Hi. rewrite Hnj in Hj.
  injection Hi as Hi. injection Hj as Hj.
  destruct (Nat.lt_trichotomy i j) as [Hc|[Hc|Hc]]; [|done|].
  - exfalso. apply (Hlt i j ki kj Hc Hki Hkj). congruence.
  - exfalso. apply (Hlt j i kj ki Hc Hkj Hki). congruence.
Qed.

(** Without two keys of the same base no identifier gets a suffix. *)
Lemma unit_names_no_collision keys :
  NoDup (map sanitize keys) -> unit_names sanitize ∅ keys = map sanitize keys.
Proof.
  intros Hnd. apply list_eq. intros i.
  destruct (keys !! i) as [k|] eqn:Hi.
  - rewrite (unit_names_lookup sanitize [] ∅ keys i k (tracks_empty sanitize) Hi).
    cbn [app]. rewrite occurrences_zero.
    + cbn [suffixed]. symmetry. change (map sanitize keys) with (sanitize <$> keys).
      by rewrite list_lookup_fmap, Hi.
    + intros k' Hk' Heq. apply list_elem_of_lookup in Hk' as [j Hj].
      apply lookup_take_Some in Hj as [Hj Hlt].
      assert (j = i); [|lia].
      eapply (NoDup_lookup (map sanitize keys) j i (sanitize k)); [done| |].
      * change (map sanitize keys) with (sanitize <$> keys).
        by rewrite list_lookup_fmap, Hj; cbn; rewrite Heq.
      * change (map sanitize keys) with (sanitize <$> keys).
        by rewrite list_lookup_fmap, Hi.
  - rewrite !lookup_ge_None_2; [done| |].
    + rewrite length_map. by apply lookup_ge_None_1.
    + rewrite unit_names_length. by apply lookup_ge_None_1.
Qed.

End Distinct.

(** X1: the richer sanitizer is a single pass: every character that is not
    alphanumeric becomes an underscore, runs of underscores shrink to one,
    and [test_] goes in front of a leading digit; its nine literal
    replacements change nothing in the result. *)
Theorem rich_sanitizer_one_pass (U : unicode_tables) (x : pystr) :
  ascii_faithful U ->
  GenerateTests.sanitize_test_name U x = prefix_digit U (squeeze (keep_alnum U x)).
Proof. intros HU. by apply rich_sanitize_one_pass. Qed.

Lemma rich_sanitizer_one_pass_witness :
  GenerateTests.sanitize_test_name ascii_tables (str "a::b--(c)")
  = prefix_digit ascii_tables (squeeze (keep_alnum ascii_tables (str "a::b--(c)"))).
Proof.
  apply (rich_sanitizer_one_pass ascii_tables (str "a::b--(c)")).
  exact ascii_tables_faithful.
Defined.

(** X2: the simpler sanitizer is the same character map followed by the
    prefix; its three literal replacements are redundant. *)
Theorem simple_sanitizer_one_pass (U : unicode_tables) (x : pystr) :
  ascii_faithful U ->
  GenerateSpecTests.sanitize_test_name U x = prefix_digit U (keep_alnum U x).
Proof. intros HU. by apply simple_sanitize_one_pass. Qed.

Lemma simple_sanitizer_one_pass_witness :
  GenerateSpecTests.sanitize_test_name ascii_tables (str "a.b c")
  = prefix_digit ascii_tables (keep_alnum ascii_tables (str "a.b c")).
Proof.
  apply (simple_sanitizer_one_pass ascii_tables (str "a.b c")).
  exact ascii_tables_faithful.
Defined.

(** X3: a name sanitized by the richer variant consists of alphanumeric
    characters and underscores, has no two underscores in a row, does not
    start with a digit, and is empty only for the empty name. *)
Theorem rich_sanitized_shape (U : unicode_tables) (x : pystr) :
  ascii_faithful U ->
  let r := GenerateTests.sanitize_test_name U x in
  Forall (clean U) r /\
  contains (str "__") r = false /\
  starts_with_digit U r = false /\
  (r = [] <-> x = []).
Proof.
  intros HU r. split; [by apply rich_sanitize_clean|].
  split; [by apply rich_sanitize_no_uu|]. subst r.
  rewrite rich_sanitize_one_pass by done.
  split; [by apply prefix_digit_no_digit|].
  rewrite prefix_digit_nil, squeeze_nil. unfold keep_alnum.
  split; [apply map_eq_nil | by intros ->].
Qed.

Lemma rich_sanitized_shape_witness :
  starts_with_digit ascii_tables
    (GenerateTests.sanitize_test_name ascii_tables (str "2 + 2")) = false.
Proof.
  exact (proj1 (proj2 (proj2 (rich_sanitized_shape ascii_tables (str "2 + 2")
                                ascii_tables_faithful)))).
Defined.

(** X4: a name sanitized by the simpler variant consists of alphanumeric
    characters and underscores and does not start with a digit; it is as
    long as the raw name, plus the five characters of [test_] when that
    prefix is added. *)
Theorem simple_sanitized_shape (U : unicode_tables) (x : pystr) :
  ascii_faithful U ->
  let r := GenerateSpecTests.sanitize_test_name U x in
  Forall (clean U) r /\
  starts_with_digit U r = false /\
  length r
  = (length x + if starts_with_digit U (keep_alnum U x) then 5 else 0)%nat.
Proof.
  intros HU r. split; [by apply simple_sanitize_clean|]. subst r.
  rewrite simple_sanitize_one_pass by done.
  split; [by apply prefix_digit_no_digit|].
  assert (length (keep_alnum U x) = length x) as <-
    by (unfold keep_alnum; apply length_map).
  destruct (keep_alnum U x) as [|c s]; [done|].
  rewrite prefix_digit_cons. cbn [starts_with_digit].
  destruct (isdigit U c); [|lia]. rewrite length_app. cbn. lia.
Qed.

Lemma simple_sanitized_shape_witness :
  length (GenerateSpecTests.sanitize_test_name ascii_tables (str "2 + 2"))
  = (length (str "2 + 2") + 5)%nat.
Proof.
  exact (proj2 (proj2 (simple_sanitized_shape ascii_tables (str "2 + 2")
                         ascii_tables_faithful))).
Defined.

(** X5: a name that already is an identifier, made of alphanumeric
    characters and underscores and not starting with a digit, is returned
    unchanged by the simpler variant, and by the richer variant when it has
    no two underscores in a row. *)
Theorem identifier_unchanged (U : unicode_tables) (s : pystr) :
  ascii_faithful U ->
  Forall (clean U) s -> starts_with_digit U s = false ->
  GenerateSpecTests.sanitize_test_name U s = s /\
  (contains (str "__") s = false -> GenerateTests.sanitize_test_name U s = s).
Proof.
  intros HU Hc Hd. split.
  - apply simple_sanitize_fixpoint; [done | done |]. by apply prefix_digit_fixed.
  - intros Hu. apply rich_sanitize_fixpoint; [done | done | done |].
    by apply prefix_digit_fixed.
Qed.

Lemma identifier_unchanged_witness :
  GenerateSpecTests.sanitize_test_name ascii_tables (str "add_mod_9") = str "add_mod_9".
Proof.
  assert (Forall (clean ascii_tables) (str "add_mod_9")) as Hc
    by (eval_str; repeat (constructor; [reflexivity|]); constructor).
  exact (proj1 (identifier_unchanged ascii_tables (str "add_mod_9")
                  ascii_tables_faithful Hc eq_refl)).
Defined.

(** X6: a non-empty name without any alphanumeric character becomes the
    single underscore in the richer variant and a row of underscores of the
    same length in the simpler one. *)
Theorem separator_only_name (U : unicode_tables) (x : pystr) :
  ascii_faithful U ->
  x <> [] -> Forall (fun c => isalnum U c = false) x ->
  GenerateTests.sanitize_test_name U x = [underscore] /\
  GenerateSpecTests.sanitize_test_name U x = replicate (length x) underscore.
Proof.
  intros HU Hne Hx.
  assert (isdigit U underscore = false) as Hd
    by (destruct (HU underscore) as (_ & -> & _); [reflexivity | reflexivity]).
  rewrite rich_sanitize_one_pass, simple_sanitize_one_pass by done.
  rewrite (keep_alnum_separators U x Hx).
  destruct x as [|c x]; [done|]. cbn [length]. rewrite squeeze_replicate.
  split.
  - rewrite prefix_digit_cons. by rewrite Hd.
  - cbn [replicate]. rewrite prefix_digit_cons. by rewrite Hd.
Qed.

Lemma separator_only_name_witness :
  GenerateTests.sanitize_test_name ascii_tables (str "-->") = [underscore] /\
  GenerateSpecTests.sanitize_test_name ascii_tables (str "-->")
  = replicate (length (str "-->")) underscore.
Proof.
  assert (Forall (fun c => isalnum ascii_tables c = false) (str "-->")) as Hx
    by (eval_str; repeat (constructor; [reflexivity|]); constructor).
  exact (separator_only_name ascii_tables (str "-->") ascii_tables_faithful
           ltac:(discriminate) Hx).
Defined.

Lemma zip_units_keys (abs : path) (names keys : list pystr) :
  length names = length keys ->
  map unit_test_name
    (map (fun '(nm, k) =>
            {| unit_name := nm; unit_json_path := to_str abs; unit_test_name := k |})
       (zip names keys)) = keys.
Proof.
  revert names. induction keys as [|k ks IH]; intros [|n names] Hl; try done.
  cbn. f_equal. apply IH. by injection Hl.
Qed.

(** X7: the unit loop of [generate_tests.py] emits one unit per key, in key
    order, each with its raw key verbatim and the same JSON path; the loop
    of [generate_spec_tests.py] does the same whenever it returns, and it
    returns without touching the state unless the fixture root is outside
    the repository root and there is a key. *)
Theorem units_carry_keys (U : unicode_tables) (keys : list pystr) :
  (forall json_rel_path used_names,
      let us := GenerateTests.emit_units U json_rel_path used_names keys in
      map unit_test_name us = keys /\
      Forall (fun u => unit_json_path u = json_rel_path) us) /\
  (forall specs_root repo_root rel_path used_names s,
      match relative_to (joinpath specs_root rel_path) repo_root, keys with
      | None, _ :: _ =>
          GenerateSpecTests.emit_units U specs_root repo_root rel_path used_names
            keys s = (Raised ValueError, s)
      | _, _ =>
          exists us,
            GenerateSpecTests.emit_units U specs_root repo_root rel_path used_names
              keys s = (Ok us, s) /\
            map unit_test_name us = keys
      end).
Proof.
  split.
  - intros json_rel_path used_names. cbn zeta. revert used_names.
    induction keys as [|k ks IH]; intros used_names; [by split|].
    cbn [GenerateTests.emit_units]. destruct (unique_name used_names _) as [nm used'].
    destruct (IH used') as [IH1 IH2]. cbn [map unit_test_name]. split.
    + by rewrite IH1.
    + by constructor.
  - intros specs_root repo_root rel_path used_names s.
    rewrite simple_emit_units_names.
    destruct (relative_to (joinpath specs_root rel_path) repo_root) as [abs|].
    + exists (match keys with
              | [] => []
              | _ :: _ =>
                  map (fun '(nm, k) =>
                         {| unit_name := nm; unit_json_path := to_str abs;
                            unit_test_name := k |})
                    (zip (unit_names (GenerateSpecTests.sanitize_test_name U)
                            used_names keys) keys)
              end).
      split; [by destruct keys|].
      destruct keys as [|k ks]; [done|].
      apply zip_units_keys, unit_names_length.
    + destruct keys as [|k ks]; [by exists [] | done].
Qed.

(** X8: when the keys of a file sanitize to pairwise distinct names, every
    unit gets its sanitized name without a suffix. *)
Theorem distinct_bases_keep_names (U : unicode_tables) (keys : list pystr)
    (json_rel_path : pystr) :
  NoDup (map (GenerateTests.sanitize_test_name U) keys) ->
  map unit_name (GenerateTests.emit_units U json_rel_path ∅ keys)
  = map (GenerateTests.sanitize_test_name U) keys.
Proof.
  intros Hnd. rewrite rich_emit_units_names. by apply unit_names_no_collision.
Qed.

Lemma distinct_bases_keep_names_witness :
  map unit_name
    (GenerateTests.emit_units ascii_tables (str "f.json") ∅ [str "add"; str "a-b"])
  = map (GenerateTests.sanitize_test_name ascii_tables) [str "add"; str "a-b"].
Proof.
  apply (distinct_bases_keep_names ascii_tables [str "add"; str "a-b"] (str "f.json")).
  apply (bool_decide_unpack _). vm_compute. exact I.
Defined.

(** X9: the identifiers of one output file are pairwise distinct whenever no
    key sanitizes to another key's sanitized name followed by an underscore
    and a positive number; in particular two keys with the same sanitized
    name never get the same identifier. *)
Theorem unit_names_distinct_unless_shadowed (U : unicode_tables)
    (keys : list pystr) (json_rel_path : pystr) :
  (forall k k' n,
      k ∈ keys -> k' ∈ keys ->
      GenerateTests.sanitize_test_name U k'
      <> GenerateTests.sanitize_test_name U k ++ str "_" ++ str_of_nat (S n)) ->
  NoDup (map unit_name (GenerateTests.emit_units U json_rel_path ∅ keys)).
Proof.
  intros H. rewrite rich_emit_units_names. by apply unit_names_NoDup.
Qed.

Lemma unit_names_distinct_unless_shadowed_witness :
  NoDup (map unit_name
           (GenerateTests.emit_units ascii_tables (str "f.json") ∅
              [str "a.b"; str "a-b"; str "a b"])).
Proof.
  apply (unit_names_distinct_unless_shadowed ascii_tables
           [str "a.b"; str "a-b"; str "a b"] (str "f.json")).
  intros k k' n Hk Hk' Heq.
  assert (GenerateTests.sanitize_test_name ascii_tables k = str "a_b") as Ek.
  { repeat (apply elem_of_cons in Hk as [->|Hk]; [vm_compute; reflexivity|]).
    by apply elem_of_nil in Hk. }
  assert (GenerateTests.sanitize_test_name ascii_tables k' = str "a_b") as Ek'.
  { repeat (apply elem_of_cons in Hk' as [->|Hk']; [vm_compute; reflexivity|]).
    by apply elem_of_nil in Hk'. }
  rewrite Ek, Ek' in Heq. apply (f_equal length) in Heq.
  rewrite !length_app in Heq. cbn in Heq. lia.
Defined.

(** ** What the analyzer matches and counts *)


Section Matcher.

Lemma starts_with_app a t : starts_with a t = true <-> exists rest, t = a ++ rest.
Proof.
  revert t. induction a as [|c a IH]; intros t.
  - split; [by exists t | done].
  - destruct t as [|d t]; [split; [done | by intros [? ?]]|].
    cbn [starts_with]. rewrite andb_true_iff, N.eqb_eq, IH. split.
    + intros [-> [rest ->]]. by exists rest.
    + intros [rest [= -> ->]]. split; [done | by exists rest].
Qed.

Lemma match_tail_sound t status :
  match_tail t = Some status ->
  (status = str "OK" \/ status = str "FAIL") /\
  exists rest, t = str "..." ++ status ++ rest.
Proof.
  unfold match_tail. destruct (starts_with (str "...") t) eqn:E; [|done].
  apply starts_with_app in E as [t' ->].
  change (drop 3 (str "..." ++ t')) with t'.
  destruct (starts_with (str "OK") t') eqn:E1.
  - intros [= <-]. apply starts_with_app in E1 as [rest ->].
    split; [by left | by exists rest].
  - destruct (starts_with (str "FAIL") t') eqn:E2; [|done].
    intros [= <-]. apply starts_with_app in E2 as [rest ->].
    split; [by right | by exists rest].
Qed.

Lemma backtrack_sound t k name status :
  backtrack t k = Some (name, status) ->
  exists n, (0 < n <= k)%nat /\ name = take n t /\
            match_tail (drop n t) = Some status.
Proof.
  induction k as [|k IH]; [done|]. cbn [backtrack].
  destruct (match_tail (drop (S k) t)) as [st|] eqn:E.
  - intros [= <- <-]. exists (S k). repeat split; [lia | lia | done].
  - intros H. destruct (IH H) as (n & Hn & Hname & Ht).
    exists n. repeat split; [lia | lia | done | done].
Qed.

Lemma nonspace_run_spec U t n :
  (n <= nonspace_run U t)%nat ->
  Forall (fun c => isspace U c = false) (take n t) /\ (n <= length t)%nat.
Proof.
  revert n. induction t as [|c t IH]; intros n Hn.
  - cbn in Hn. assert (n = O) as -> by lia. by split.
  - destruct n as [|n]; [split; [constructor | cbn; lia]|].
    cbn [nonspace_run] in Hn. destruct (isspace U c) eqn:E; [lia|].
    destruct (IH n ltac:(lia)) as [H1 H2]. cbn [take length].
    split; [by constructor | lia].
Qed.

Lemma match_here_sound U t name g0 :
  match_here U t = Some (name, g0) ->
  well_matched U (name, g0) /\ exists rest, t = g0 ++ rest.
Proof.
  unfold match_here. destruct (starts_with (str "test.") t) eqn:E; [|done].
  apply starts_with_app in E as [t1 ->].
  change (drop 5 (str "test." ++ t1)) with t1.
  destruct (backtrack t1 (nonspace_run U t1)) as [[nm st]|] eqn:Eb; [|done].
  intros [= <- <-].
  apply backtrack_sound in Eb as (n & Hn & -> & Ht).
  apply match_tail_sound in Ht as [Hst [rest Hrest]].
  destruct (nonspace_run_spec U t1 n ltac:(lia)) as [Hns Hlen].
  split.
  - split; [|split; [done | by exists st]]. cbn [fst].
    intros E. apply (f_equal length) in E. rewrite length_take in E.
    cbn in E. lia.
  - exists rest.
    change (str "test." ++ t1
            = (str "test." ++ take n t1 ++ str "..." ++ st) ++ rest).
    rewrite <- !app_assoc. f_equal. rewrite <- Hrest. by rewrite take_drop.
Qed.

Lemma finditer_from_sound U skip t :
  Forall (well_matched U) (finditer_from U skip t).
Proof.
  revert skip. induction t as [|c t IH]; intros skip; [constructor|].
  cbn [finditer_from]. destruct skip; [|apply IH].
  destruct (match_here U (c :: t)) as [[g1 g0]|] eqn:E; [|apply IH].
  constructor; [|apply IH]. by apply match_here_sound in E as [H _].
Qed.

(** A text without the literal [test.] has no match. *)
Lemma finditer_from_none U skip t :
  contains (str "test.") t = false -> finditer_from U skip t = [].
Proof.
  revert skip. induction t as [|c t IH]; intros skip H; [done|].
  cbn [contains] in H. apply orb_false_elim in H as [H1 H2].
  cbn [finditer_from]. destruct skip; [|by apply IH].
  unfold match_here. rewrite H1. by apply IH.
Qed.

Lemma classify_lengths ms :
  (length (classify ms).1 + length (classify ms).2 = length ms)%nat.
Proof.
  induction ms as [|[nm g0] ms IH]; [done|]. cbn [classify].
  destruct (classify ms) as [p f]. cbn [fst snd] in IH.
  destruct (bool_decide (status_of g0 = str "OK")); cbn [fst snd length]; lia.
Qed.

End Matcher.

Section Totals.

Lemma sum_counts_fresh (m : gmap pystr (nat * nat)) c v :
  m !! c = None ->
  sum_counts (<[c := v]> m)
  = ((v.1 + (sum_counts m).1)%nat, (v.2 + (sum_counts m).2)%nat).
Proof.
  intros H0. unfold sum_counts.
  rewrite map_fold_insert_L; [done| |done].
  intros j1 j2 z1 z2 y _ _ _. cbn [fst snd]. apply pair_equal_spec; lia.
Qed.

Lemma sum_counts_present (m : gmap pystr (nat * nat)) c v0 :
  m !! c = Some v0 ->
  sum_counts m
  = ((v0.1 + (sum_counts (delete c m)).1)%nat,
     (v0.2 + (sum_counts (delete c m)).2)%nat).
Proof.
  intros E. rewrite <- (insert_delete_id m c v0 E) at 1.
  apply sum_counts_fresh, lookup_delete_eq.
Qed.

Lemma sum_counts_insert (m : gmap pystr (nat * nat)) c v :
  sum_counts (<[c := v]> m)
  = ((v.1 + (sum_counts (delete c m)).1)%nat,
     (v.2 + (sum_counts (delete c m)).2)%nat).
Proof.
  rewrite <- (insert_delete_eq m c v).
  apply sum_counts_fresh, lookup_delete_eq.
Qed.

Lemma sum_counts_bump_passed m c :
  sum_counts (bump_passed m c) = (S (sum_counts m).1, (sum_counts m).2).
Proof.
  unfold bump_passed. cbv zeta. rewrite sum_counts_insert. cbn [fst snd].
  destruct (m !! c) as [v0|] eqn:E.
  - rewrite (sum_counts_present m c v0 E). reflexivity.
  - rewrite (delete_id m c E). reflexivity.
Qed.

Lemma sum_counts_bump_failed m c :
  sum_counts (bump_failed m c) = ((sum_counts m).1, S (sum_counts m).2).
Proof.
  unfold bump_failed. cbv zeta. rewrite sum_counts_insert. cbn [fst snd].
  destruct (m !! c) as [v0|] eqn:E.
  - rewrite (sum_counts_present m c v0 E). cbn [fst snd default from_option id].
    apply pair_equal_spec; lia.
  - rewrite (delete_id m c E). reflexivity.
Qed.

Lemma sum_counts_categorize passed_names failed_names :
  sum_counts (categorize passed_names failed_names)
  = (length passed_names, length failed_names).
Proof.
  unfold categorize.
  assert (forall l m,
             sum_counts (fold_left (fun cats test => bump_passed cats (extract_category test)) l m)
             = ((length l + (sum_counts m).1)%nat, (sum_counts m).2)) as Hp.
  { induction l as [|t l IH]; intros m; [cbn [fold_left length]; destruct (sum_counts m); reflexivity|].
    cbn [fold_left]. rewrite IH, sum_counts_bump_passed. cbn [fst snd length].
    apply pair_equal_spec; lia. }
  assert (forall l m,
             sum_counts (fold_left (fun cats test => bump_failed cats (extract_category test)) l m)
             = ((sum_counts m).1, (length l + (sum_counts m).2)%nat)) as Hf.
  { induction l as [|t l IH]; intros m; [cbn [fold_left length]; destruct (sum_counts m); reflexivity|].
    cbn [fold_left]. rewrite IH, sum_counts_bump_failed. cbn [fst snd length].
    apply pair_equal_spec; lia. }
  assert (sum_counts ∅ = (O, O)) as He by apply map_fold_empty.
  rewrite Hf, Hp, He. cbn [fst snd]. apply pair_equal_spec; lia.
Qed.

End Totals.

Section ResultLines.

Variable U : unicode_tables.
Hypothesis HU : ascii_faithful U.

Lemma backtrack_longest t n k st :
  (0 < n <= k)%nat ->
  match_tail (drop n t) = Some st ->
  (forall j, (n < j <= k)%nat -> match_tail (drop j t) = None) ->
  backtrack t k = Some (take n t, st).
Proof.
  induction k as [|k IH]; intros Hn Hst Hnone; [lia|].
  cbn [backtrack]. destruct (decide (n = S k)) as [->|Hne].
  - by rewrite Hst.
  - rewrite Hnone by lia. apply IH; [lia | done |].
    intros j Hj. apply Hnone. lia.
Qed.

Lemma nonspace_run_app a b :
  Forall (fun c => isspace U c = false) a ->
  nonspace_run U (a ++ b) = (length a + nonspace_run U b)%nat.
Proof.
  induction 1 as [|c a Hc _ IH]; [done|].
  cbn [app nonspace_run length]. rewrite Hc, IH. done.
Qed.

Lemma nonspace_ascii c : c < 128 -> ascii_isspace c = false -> isspace U c = false.
Proof. intros Hc H. destruct (HU c Hc) as (_ & _ & ->). done. Qed.

Lemma status_nonspace ok :
  Forall (fun c => isspace U c = false) (str "..." ++ status_text ok).
Proof.
  destruct ok; repeat constructor; by apply nonspace_ascii.
Qed.

Lemma match_tail_stop rest :
  nonspace_run U rest = O -> match_tail rest = None.
Proof.
  destruct rest as [|c rest]; [done|]. cbn [nonspace_run].
  destruct (isspace U c) eqn:E; [|done]. intros _.
  unfold match_tail. eval_str. cbn [starts_with].
  destruct (46 =? c) eqn:E1; [|done].
  apply N.eqb_eq in E1 as <-.
  rewrite (nonspace_ascii 46) in E; [done | done | done].
Qed.

Lemma match_tail_inside ok rest i :
  nonspace_run U rest = O ->
  (1 <= i <= 3 + length (status_text ok))%nat ->
  match_tail (drop i (str "..." ++ status_text ok ++ rest)) = None.
Proof.
  intros Hrest Hi.
  destruct ok.
  - assert (i = 1 \/ i = 2 \/ i = 3 \/ i = 4 \/ i = 5)%nat
      as [->|[->|[->|[->| ->]]]] by (cbn in Hi; lia);
      [by vm_compute ..|exact (match_tail_stop rest Hrest)].
  - assert (i = 1 \/ i = 2 \/ i = 3 \/ i = 4 \/ i = 5 \/ i = 6 \/ i = 7)%nat
      as [->|[->|[->|[->|[->|[->| ->]]]]]] by (cbn in Hi; lia);
      [by vm_compute ..|exact (match_tail_stop rest Hrest)].
Qed.

Lemma match_here_result name ok rest :
  name <> [] ->
  Forall (fun c => isspace U c = false) name ->
  nonspace_run U rest = O ->
  match_here U (result_text name ok ++ rest) = Some (name, result_text name ok).
Proof.
  intros Hne Hns Hrest. unfold match_here, result_text.
  rewrite <- !app_assoc.
  assert (starts_with (str "test.")
            (str "test." ++ name ++ str "..." ++ status_text ok ++ rest) = true) as ->.
  { apply starts_with_app. by eexists. }
  change (drop 5 (str "test." ++ ?t)) with t.
  set (t1 := name ++ str "..." ++ status_text ok ++ rest).
  assert (nonspace_run U t1 = (length name + (3 + length (status_text ok)))%nat) as ->.
  { unfold t1. rewrite nonspace_run_app by done. f_equal.
    rewrite (app_assoc (str "...")).
    rewrite nonspace_run_app by apply status_nonspace.
    rewrite Hrest. destruct ok; by vm_compute. }
  rewrite (backtrack_longest t1 (length name) _ (status_text ok)).
  - unfold t1. rewrite take_app_length. done.
  - destruct name; [done|]. cbn [length]. lia.
  - unfold t1. rewrite drop_app_length. by destruct ok.
  - intros j Hj. unfold t1. rewrite drop_app_ge by lia.
    apply match_tail_inside; [done | lia].
Qed.

Lemma finditer_from_skip a b :
  finditer_from U (length a) (a ++ b) = finditer_from U 0 b.
Proof. induction a as [|c a IH]; [done|]. exact IH. Qed.

Lemma finditer_result name ok rest :
  name <> [] ->
  Forall (fun c => isspace U c = false) name ->
  nonspace_run U rest = O ->
  finditer_from U 0 (result_text name ok ++ rest)
  = (name, result_text name ok) :: finditer_from U 0 rest.
Proof.
  intros Hne Hns Hrest.
  pose proof (match_here_result name ok rest Hne Hns Hrest) as Hm.
  assert (exists g, result_text name ok = 116 :: g) as [g Hg] by (by eexists).
  rewrite Hg in Hm |- *. cbn [app finditer_from]. cbn [app] in Hm. rewrite Hm.
  f_equal.
  cbn [length]. replace (S (length g) - 1)%nat with (length g) by lia.
  apply finditer_from_skip.
Qed.

Lemma finditer_newline t :
  finditer_from U 0 (newline ++ t) = finditer_from U 0 t.
Proof. reflexivity. Qed.

Lemma nonspace_run_newline t : nonspace_run U (newline ++ t) = O.
Proof.
  cbn [newline app nonspace_run].
  destruct (HU 10 ltac:(done)) as (_ & _ & ->). done.
Qed.

Lemma finditer_log rs :
  Forall (fun r => r.1 <> [] /\ Forall (fun c => isspace U c = false) r.1) rs ->
  finditer U (log_of rs) = map (fun r => (r.1, result_text r.1 r.2)) rs.
Proof.
  unfold finditer. induction 1 as [|[name ok] rs [Hne Hns] _ IH]; [done|].
  cbn [log_of flat_map fst snd map]. rewrite <- app_assoc.
  rewrite finditer_result; [|done|done|apply nonspace_run_newline].
  rewrite finditer_newline. f_equal. exact IH.
Qed.

(** *** The status token read back *)

Lemma last_cons_nonempty {A} (x : A) l d : l <> [] -> List.last (x :: l) d = List.last l d.
Proof. by destruct l. Qed.

Lemma split_status_boundary pre b skip cur :
  (skip < length pre)%nat ->
  List.last pre 0 <> dot ->
  List.last (split_from [dot; dot; dot] skip cur (pre ++ dot :: dot :: dot :: b)) []
  = List.last (split_from [dot; dot; dot] 0 [] b) [].
Proof.
  revert skip cur. induction pre as [|c pre IH]; intros skip cur Hskip Hlast.
  { cbn in Hskip. lia. }
  cbn [app split_from]. destruct skip as [|k].
  - destruct (starts_with [dot; dot; dot] (c :: pre ++ dot :: dot :: dot :: b)) eqn:E.
    + cbn [length Nat.sub].
      rewrite last_cons_nonempty by apply split_from_nonempty.
      assert (2 < length pre)%nat as Hlen.
      { destruct pre as [|d [|e [|f pre]]]; cbn [length]; try lia;
          cbn [app starts_with List.last] in E, Hlast;
          repeat (apply andb_prop in E as [?%N.eqb_eq E]); congruence. }
      apply IH; [done|]. destruct pre; [cbn in Hlen; lia | exact Hlast].
    + destruct pre as [|d pre].
      * cbn [app split_from starts_with]. rewrite !N.eqb_refl.
        cbn [andb length Nat.sub].
        apply last_cons_nonempty, split_from_nonempty.
      * apply IH; [cbn [length]; lia | exact Hlast].
  - cbn [length] in Hskip. apply IH; [lia|].
    destruct pre; [cbn in Hskip; lia | exact Hlast].
Qed.

Lemma last_app_nonempty (a b : pystr) d : b <> [] -> List.last (a ++ b) d = List.last b d.
Proof.
  intros Hb. induction a as [|x a IH]; [done|].
  cbn [app]. rewrite last_cons_nonempty; [done|]. by destruct a, b.
Qed.

Lemma status_of_result name ok :
  name <> [] -> List.last name 0 <> dot ->
  status_of (result_text name ok) = status_text ok.
Proof.
  intros Hne Hlast. unfold status_of, split, result_text.
  rewrite app_assoc.
  change (str "...") with [dot; dot; dot].
  change ([dot; dot; dot] ++ status_text ok) with (dot :: dot :: dot :: status_text ok).
  rewrite split_status_boundary.
  - by destruct ok.
  - rewrite length_app. cbn [length str]. destruct name; [done|]. cbn; lia.
  - by rewrite last_app_nonempty.
Qed.

Lemma classify_log rs :
  Forall (fun r => printable_name U r.1) rs ->
  classify (map (fun r => (r.1, result_text r.1 r.2)) rs)
  = (map fst (filter (fun r => r.2 = true) rs),
     map fst (filter (fun r => r.2 = false) rs)).
Proof.
  induction 1 as [|[name ok] rs (Hne & _ & Hlast) _ IH]; [done|].
  cbn [map classify fst snd]. rewrite IH.
  rewrite status_of_result by done.
  rewrite !filter_cons. cbn [snd].
  destruct ok; cbn [status_text].
  - rewrite bool_decide_eq_true_2 by done. repeat case_decide; done.
  - rewrite bool_decide_eq_false_2 by (by vm_compute). repeat case_decide; done.
Qed.

End ResultLines.

Section Rates.

Lemma pass_rate_bounds (n_passed n_total : nat) :
  (n_passed <= n_total)%nat ->
  (0 <= pass_rate n_passed n_total)%Q /\ (pass_rate n_passed n_total <= 100)%Q.
Proof.
  intros Hle. unfold pass_rate. case_bool_decide as Hpos; [|done].
  destruct n_total as [|t]; [lia|].
  unfold Qle, Qdiv, Qmult, Qinv, inject_Z.
  change (Z.of_nat (S t)) with (Z.pos (Pos.of_succ_nat t)).
  cbn [Qnum Qden]. split; [lia|].
  assert (Z.of_nat n_passed <= Z.pos (Pos.of_succ_nat t))%Z by lia.
  rewrite !Pos.mul_1_l. lia.
Qed.

End Rates.

(** X10.  Whatever the log contains, every match the analyzer counts has
    a non-empty name free of whitespace, and its text is [test.], the name,
    three dots and one of the tokens [OK] and [FAIL]. *)
Theorem matches_are_result_lines (U : unicode_tables) (content : pystr) :
  Forall (well_matched U) (finditer U content).
Proof. apply finditer_from_sound. Qed.

(** X11.  A log in which the literal [test.] never occurs gives the empty
    report: no test, no category, and a pass rate of 0 instead of a
    division by zero. *)
Theorem log_without_marker (U : unicode_tables) (content : pystr) :
  contains (str "test.") content = false ->
  analyze_test_results U content
  = {| total := 0; passed := 0; failed := 0; categories := ∅ |} /\
  (pass_rate (passed (analyze_test_results U content))
             (total (analyze_test_results U content)) == 0)%Q.
Proof.
  intros H.
  assert (analyze_test_results U content
          = {| total := 0; passed := 0; failed := 0; categories := ∅ |}) as ->.
  { unfold analyze_test_results, finditer. by rewrite finditer_from_none. }
  split; [done | reflexivity].
Qed.

Lemma log_without_marker_witness :
  analyze_test_results ascii_tables (str "All 12 tests passed.")
  = {| total := 0; passed := 0; failed := 0; categories := ∅ |}.
Proof.
  apply (log_without_marker ascii_tables (str "All 12 tests passed.")).
  vm_compute. reflexivity.
Defined.

(** X12.  In every report the total is the number of matches and the sum
    of passed and failed, the per-category counters add up to the passed
    and failed totals, and the overall pass rate lies between 0 and 100. *)
Theorem report_counts_add_up (U : unicode_tables) (content : pystr) :
  let r := analyze_test_results U content in
  total r = length (finditer U content) /\
  total r = (passed r + failed r)%nat /\
  sum_counts (categories r) = (passed r, failed r) /\
  (0 <= pass_rate (passed r) (total r))%Q /\
  (pass_rate (passed r) (total r) <= 100)%Q.
Proof.
  cbv zeta. unfold analyze_test_results.
  pose proof (classify_lengths (finditer U content)) as Hlen.
  destruct (classify (finditer U content)) as [passed_names failed_names].
  cbn [fst snd] in Hlen. cbn [total passed failed categories].
  split; [lia|]. split; [done|]. split; [apply sum_counts_categorize|].
  apply pass_rate_bounds. lia.
Qed.

(** X13.  A log that prints one result per line, for names that are not
    empty, contain no whitespace and do not end in a dot, reads back
    exactly: the passed and failed names are those printed with [OK] and
    with [FAIL], in order, and the counters follow. *)
Theorem printed_log_reads_back (U : unicode_tables) (rs : list (pystr * bool)) :
  ascii_faithful U ->
  Forall (fun r => printable_name U r.1) rs ->
  let passed_names := map fst (filter (fun r => r.2 = true) rs) in
  let failed_names := map fst (filter (fun r => r.2 = false) rs) in
  finditer U (log_of rs) = map (fun r => (r.1, result_text r.1 r.2)) rs /\
  classify (finditer U (log_of rs)) = (passed_names, failed_names) /\
  analyze_test_results U (log_of rs)
  = {| total := length rs;
       passed := length passed_names;
       failed := length failed_names;
       categories := categorize passed_names failed_names |}.
Proof.
  intros HU Hrs. cbv zeta.
  assert (finditer U (log_of rs) = map (fun r => (r.1, result_text r.1 r.2)) rs) as Hf.
  { apply (finditer_log U HU).
    eapply Forall_impl; [exact Hrs|]. intros r (H1 & H2 & _). by split. }
  assert (classify (finditer U (log_of rs))
          = (map fst (filter (fun r => r.2 = true) rs),
             map fst (filter (fun r => r.2 = false) rs))) as Hc.
  { rewrite Hf. apply (classify_log U), Hrs. }
  split; [done|]. split; [done|].
  unfold analyze_test_results. rewrite Hc. f_equal.
  pose proof (classify_lengths (finditer U (log_of rs))) as Hlen.
  rewrite Hc, Hf in Hlen. cbn [fst snd] in Hlen. rewrite Hlen. apply length_map.
Qed.

Lemma printed_log_reads_back_witness :
  analyze_test_results ascii_tables
    (log_of [(str "suite.stA.add", true); (str "suite.stA.sub", false);
             (str "suite.stB.mul", true)])
  = {| total := 3; passed := 2; failed := 1;
       categories :=
         categorize [str "suite.stA.add"; str "suite.stB.mul"] [str "suite.stA.sub"] |}.
Proof.
  apply (printed_log_reads_back ascii_tables
           [(str "suite.stA.add", true); (str "suite.stA.sub", false);
            (str "suite.stB.mul", true)] ascii_tables_faithful).
  repeat constructor; try (by vm_compute).
Defined.



(** ** Invariants of a run *)

Section Keeping.

Variable I : state -> Prop.
Variable root : path.
Variable W : world.
Variable U : unicode_tables.

Hypothesis I_warn : forall s msg, I s -> I (record s [EStderr msg]).
Hypothesis I_mkdir :
  forall s p, I s ->
    I {| files := add_dirs (files s) p; events := events s ++ [EMkdir p] |}.
Hypothesis I_write :
  forall s p f, is_prefix_of root p = true -> I s ->
    I {| files := <[p := File]> (files s); events := events s ++ [EWrite p f] |}.
Hypothesis I_rmtree :
  forall s, files s !! root = Some Dir -> I s ->
    I {| files := remove_tree (files s) root; events := events s ++ [ERmtree root] |}.

Lemma preserves_ret {A} (a : A) : preserves I (ret a).
Proof. by intros s. Qed.

Lemma preserves_raise {A} (e : exn) : preserves I (@raise A e).
Proof. by intros s. Qed.

Lemma preserves_get_files : preserves I get_files.
Proof. by intros s. Qed.

Lemma preserves_bind {A B} (m : M A) (k : A -> M B) :
  preserves I m -> (forall a, preserves I (k a)) -> preserves I (FS.bind m k).
Proof.
  intros Hm Hk s Hs. unfold FS.bind. specialize (Hm s Hs).
  destruct (m s) as [[a|e] s1]; cbn [snd] in *; [by apply Hk | done].
Qed.

Lemma preserves_bind_ret {A B} (a : A) (k : A -> M B) :
  preserves I (k a) -> preserves I (FS.bind (ret a) k).
Proof. intros Hk s Hs. by apply Hk. Qed.

Lemma preserves_bind_raise {A B} (e : exn) (k : A -> M B) :
  preserves I (FS.bind (raise e) k).
Proof. by intros s. Qed.

Lemma preserves_exists p : preserves I (exists_ p).
Proof. by intros s. Qed.

Lemma preserves_eprint msg : preserves I (eprint msg).
Proof. intros s Hs. rewrite eprint_run. by apply I_warn. Qed.

Lemma preserves_load_or_warn json_path : preserves I (load_or_warn W json_path).
Proof.
  intros s Hs. rewrite load_or_warn_run.
  destruct (read_json W json_path s) as [[data|e] s1]; [done|].
  destruct (load_handler_catches e); [by apply I_warn | done].
Qed.

Lemma preserves_mkdir_p p : preserves I (mkdir_p p).
Proof.
  intros s Hs. rewrite mkdir_p_run.
  destruct (blocked (files s) p); [done | by apply I_mkdir].
Qed.

Lemma preserves_write_file p f :
  is_prefix_of root p = true -> preserves I (write_file p f).
Proof.
  intros Hp s Hs. rewrite write_file_run.
  destruct (writable (files s) p); [by apply I_write | done].
Qed.

Lemma preserves_rmtree : preserves I (rmtree root).
Proof.
  intros s Hs. rewrite rmtree_run.
  destruct (files s !! root) as [[]|] eqn:E; try done. by apply I_rmtree.
Qed.

Ltac keeps_option :=
  match goal with
  | |- preserves _ (FS.bind (of_option _ ?o) _) =>
      let E := fresh "E" in
      destruct o eqn:E; cbn [of_option];
      [apply preserves_bind_ret | apply preserves_bind_raise]
  end.

Ltac keeps_step :=
  first
    [ apply preserves_ret | apply preserves_raise | apply preserves_get_files
    | apply preserves_exists | apply preserves_eprint
    | apply preserves_load_or_warn | apply preserves_mkdir_p
    | apply preserves_rmtree
    | keeps_option
    | apply preserves_bind; [| intros ?]
    | match goal with
      | |- preserves _ (match ?x with _ => _ end) => destruct x
      end ].

Lemma relative_to_prefix (p other rel : path) :
  relative_to p other = Some rel -> is_prefix_of other p = true.
Proof. intros H. apply relative_to_Some in H as ->. apply is_prefix_of_app. Qed.

Lemma preserves_simple_units specs_root repo_root rel_path used_names keys :
  preserves I (GenerateSpecTests.emit_units U specs_root repo_root rel_path used_names keys).
Proof.
  revert used_names. induction keys as [|k keys IH]; intros used_names;
    cbn [GenerateSpecTests.emit_units]; [apply preserves_ret|].
  destruct (unique_name used_names (GenerateSpecTests.sanitize_test_name U k))
    as [nm used'].
  keeps_option. apply preserves_bind; [apply IH | intros ?; apply preserves_ret].
Qed.

Lemma preserves_simple_generate json_path specs_root repo_root :
  preserves I (GenerateSpecTests.generate_test_file W U json_path root specs_root repo_root).
Proof.
  unfold GenerateSpecTests.generate_test_file.
  apply preserves_bind; [apply preserves_load_or_warn|].
  intros [[keys| |]|]; [|repeat keeps_step..].
  keeps_option. keeps_option.
  cbv zeta. apply preserves_bind; [apply preserves_mkdir_p | intros _].
  keeps_option.
  apply preserves_bind; [apply preserves_simple_units | intros us].
  apply preserves_bind; [|intros _; apply preserves_ret].
  apply preserves_write_file. by eapply relative_to_prefix.
Qed.

Lemma preserves_rich_generate json_path json_rel_path source_name :
  preserves I (GenerateTests.generate_test_file W U json_path root json_rel_path source_name).
Proof.
  unfold GenerateTests.generate_test_file.
  apply preserves_bind; [apply preserves_load_or_warn|].
  intros [[keys| |]|]; [|repeat keeps_step..].
  cbv zeta. apply preserves_bind; [apply preserves_mkdir_p | intros _].
  keeps_option.
  apply preserves_bind; [|intros _; apply preserves_ret].
  apply preserves_write_file. by eapply relative_to_prefix.
Qed.

Lemma preserves_simple_loop specs_root repo_root json_files :
  preserves I (GenerateSpecTests.generate_loop W U root specs_root repo_root json_files).
Proof.
  induction json_files as [|f rest IH]; cbn [GenerateSpecTests.generate_loop];
    [apply preserves_ret|].
  apply preserves_bind; [apply preserves_simple_generate | intros n].
  apply preserves_bind; [apply IH | intros ?; apply preserves_ret].
Qed.

Lemma preserves_rich_loop source_name json_files :
  preserves I (GenerateTests.generate_loop W U root source_name json_files).
Proof.
  induction json_files as [|[f rel] rest IH]; cbn [GenerateTests.generate_loop];
    [apply preserves_ret|].
  apply preserves_bind; [apply preserves_rich_generate | intros n].
  apply preserves_bind; [apply IH | intros [? ?]; apply preserves_ret].
Qed.

Lemma preserves_scan_loop repo_root found :
  preserves I (GenerateTests.scan_loop repo_root found).
Proof.
  induction found as [|f rest IH]; cbn [GenerateTests.scan_loop];
    [apply preserves_ret|].
  keeps_option. apply preserves_bind; [apply IH | intros ?; apply preserves_ret].
Qed.

Lemma preserves_scan base_path source_name repo_root :
  preserves I (GenerateTests.scan_test_directory base_path source_name repo_root).
Proof.
  unfold GenerateTests.scan_test_directory.
  apply preserves_bind; [apply preserves_exists | intros present].
  destruct (negb present); repeat keeps_step. apply preserves_scan_loop.
Qed.

Lemma preserves_sources_loop repo_root sources :
  preserves I (GenerateTests.sources_loop W U repo_root root sources).
Proof.
  induction sources as [|[nm p] rest IH]; cbn [GenerateTests.sources_loop];
    [apply preserves_ret|].
  apply preserves_bind; [apply preserves_scan | intros json_files].
  apply preserves_bind; [apply preserves_rich_loop | intros [? ?]].
  apply preserves_bind; [apply IH | intros [? ?]; apply preserves_ret].
Qed.

(** The part both [main]s share: the output directory is emptied and made
    again before [c] runs. *)
Lemma preserves_rebuild {A} (c : M A) :
  preserves I c ->
  preserves I (present ← exists_ root;
               (if present then rmtree root else ret tt) ;;
               mkdir_p root ;; c).
Proof.
  intros Hc. apply preserves_bind; [apply preserves_exists | intros present].
  apply preserves_bind; [destruct present; [apply preserves_rmtree | apply preserves_ret]|].
  intros _. apply preserves_bind; [apply preserves_mkdir_p | by intros _].
Qed.

End Keeping.

(** *** The three invariants *)

Section Instances.

Variable root : path.

Lemma grown_by_step (P : event -> Prop) base s m e :
  P e -> grown_by P base s ->
  grown_by P base {| files := m; events := events s ++ [e] |}.
Proof.
  intros He (l & El & Fl). exists (l ++ [e]). cbn [events].
  rewrite El, <- app_assoc. split; [done|]. apply Forall_app. by split; [|constructor].
Qed.

Lemma emits_only_of_preserves {A} (P : event -> Prop) (c : M A) :
  (forall base, preserves (grown_by P base) c) -> emits_only P c.
Proof.
  intros H s. apply (H (events s) s). exists []. by rewrite app_nil_r.
Qed.

Lemma keeps_outside_refl s : keeps_outside root s s.
Proof. by intros q n. Qed.

Lemma keeps_outside_warn s0 s msg :
  keeps_outside root s0 s -> keeps_outside root s0 (record s [EStderr msg]).
Proof. done. Qed.

Lemma keeps_outside_mkdir s0 s p :
  keeps_outside root s0 s ->
  keeps_outside root s0
    {| files := add_dirs (files s) p; events := events s ++ [EMkdir p] |}.
Proof.
  intros H q n Hq Hn. cbn [files]. rewrite add_dirs_lookup.
  by rewrite (H q n Hq Hn).
Qed.

Lemma keeps_outside_write s0 s p f :
  is_prefix_of root p = true ->
  keeps_outside root s0 s ->
  keeps_outside root s0
    {| files := <[p := File]> (files s); events := events s ++ [EWrite p f] |}.
Proof.
  intros Hp H q n Hq Hn. cbn [files].
  rewrite lookup_insert_ne by congruence. by apply H.
Qed.

Lemma keeps_outside_rmtree s0 s :
  files s !! root = Some Dir ->
  keeps_outside root s0 s ->
  keeps_outside root s0
    {| files := remove_tree (files s) root; events := events s ++ [ERmtree root] |}.
Proof.
  intros _ H q n Hq Hn. cbn [files]. rewrite remove_tree_lookup, Hq. by apply H.
Qed.

Lemma all_written_mono l l' m :
  all_written root l m -> all_written root (l ++ l') m.
Proof.
  intros H q Hq Hf. destruct (H q Hq Hf) as [f Hin]. exists f.
  apply elem_of_app. by left.
Qed.

Lemma rebuilt_since_warn base s msg :
  rebuilt_since root base s -> rebuilt_since root base (record s [EStderr msg]).
Proof.
  intros (l & El & Hl). exists (l ++ [EStderr msg]). cbn [record events files].
  rewrite El, <- app_assoc. split; [done | by apply all_written_mono].
Qed.

Lemma rebuilt_since_mkdir base s p :
  rebuilt_since root base s ->
  rebuilt_since root base
    {| files := add_dirs (files s) p; events := events s ++ [EMkdir p] |}.
Proof.
  intros (l & El & Hl). exists (l ++ [EMkdir p]). cbn [events files].
  rewrite El, <- app_assoc. split; [done|].
  intros q Hq Hf. rewrite add_dirs_lookup in Hf.
  destruct (files s !! q) as [n|] eqn:E.
  - apply (all_written_mono l [EMkdir p] (files s) Hl q Hq). by rewrite E.
  - by destruct (decide (q ∈ prefixes p)).
Qed.

Lemma rebuilt_since_write base s p f :
  is_prefix_of root p = true ->
  rebuilt_since root base s ->
  rebuilt_since root base
    {| files := <[p := File]> (files s); events := events s ++ [EWrite p f] |}.
Proof.
  intros _ (l & El & Hl). exists (l ++ [EWrite p f]). cbn [events files].
  rewrite El, <- app_assoc. split; [done|].
  intros q Hq Hf. destruct (decide (p = q)) as [->|Hne].
  - exists f. apply elem_of_app. right. by left.
  - rewrite lookup_insert_ne in Hf by done.
    by apply (all_written_mono l [EWrite p f] (files s) Hl q Hq).
Qed.

Lemma rebuilt_since_rmtree base s :
  files s !! root = Some Dir ->
  rebuilt_since root base s ->
  rebuilt_since root base
    {| files := remove_tree (files s) root; events := events s ++ [ERmtree root] |}.
Proof.
  intros _ (l & El & Hl). exists (l ++ [ERmtree root]). cbn [events files].
  rewrite El, <- app_assoc. split; [done|].
  intros q Hq Hf. rewrite remove_tree_lookup, Hq in Hf. done.
Qed.

(** Right after the old output directory is gone nothing is left to
    account for. *)
Lemma rebuilt_since_emptied s :
  rebuilt_since root (events s)
    {| files := remove_tree (files s) root; events := events s ++ [ERmtree root] |}.
Proof.
  exists [ERmtree root]. split; [done|]. intros q Hq Hf. cbn [files] in Hf.
  rewrite remove_tree_lookup, Hq in Hf. done.
Qed.

Lemma rebuilt_since_empty s :
  (forall q, is_prefix_of root q = true -> files s !! q = None) ->
  rebuilt_since root (events s) s.
Proof.
  intros H. exists []. rewrite app_nil_r. split; [done|].
  intros q Hq Hf. by rewrite (H q Hq) in Hf.
Qed.

(** The head of both [main]s: once it is through, the invariant of a
    rebuild holds. *)
Lemma rebuilt_after_cleaning s :
  files s !! root = Some Dir \/
  (forall q, is_prefix_of root q = true -> files s !! q = None) ->
  rebuilt_since root (events s)
    ((if exists_in (files s) root then rmtree root else ret tt) s).2.
Proof.
  intros [Hd|He].
  - rewrite (exists_in_dir _ _ Hd), rmtree_run, Hd. apply rebuilt_since_emptied.
  - destruct (exists_in (files s) root); [|by apply rebuilt_since_empty].
    rewrite rmtree_run, (He root (is_prefix_of_refl root)).
    by apply rebuilt_since_empty.
Qed.

Lemma bind_establishes {A B} (I : state -> Prop) (m : M A) (k : A -> M B) s :
  I (m s).2 -> (forall a, preserves I (k a)) -> I (FS.bind m k s).2.
Proof.
  intros Hm Hk. unfold FS.bind.
  destruct (m s) as [[a|e] s1]; cbn [snd] in *; [by apply Hk | done].
Qed.

End Instances.

Section RunFacts.

Variable W : world.
Variable U : unicode_tables.


Lemma rebuild_event_grows root base :
  (forall s msg, grown_by (rebuild_event root) base s ->
                 grown_by (rebuild_event root) base (record s [EStderr msg])) /\
  (forall s p, grown_by (rebuild_event root) base s ->
               grown_by (rebuild_event root) base
                 {| files := add_dirs (files s) p; events := events s ++ [EMkdir p] |}) /\
  (forall s p f, is_prefix_of root p = true ->
                 grown_by (rebuild_event root) base s ->
                 grown_by (rebuild_event root) base
                   {| files := <[p := File]> (files s);
                      events := events s ++ [EWrite p f] |}) /\
  (forall s, files s !! root = Some Dir ->
             grown_by (rebuild_event root) base s ->
             grown_by (rebuild_event root) base
               {| files := remove_tree (files s) root;
                  events := events s ++ [ERmtree root] |}).
Proof.
  repeat split; intros; by apply grown_by_step.
Qed.

(** The part of [generate_spec_tests.py]'s [main] after the fixtures are
    there, and all of [generate_tests.py]'s after them. *)
Lemma preserves_state_tail (I : state -> Prop) root specs_root repo_root :
  (forall s msg, I s -> I (record s [EStderr msg])) ->
  (forall s p, I s ->
     I {| files := add_dirs (files s) p; events := events s ++ [EMkdir p] |}) ->
  (forall s p f, is_prefix_of root p = true -> I s ->
     I {| files := <[p := File]> (files s); events := events s ++ [EWrite p f] |}) ->
  preserves I
    (mkdir_p root ;; m ← get_files;
     GenerateSpecTests.generate_loop W U root specs_root repo_root
       (GenerateSpecTests.find_json_files m specs_root)).
Proof.
  intros H1 H2 H3.
  apply preserves_bind; [by apply preserves_mkdir_p | intros _].
  apply preserves_bind; [apply preserves_get_files | intros m].
  by apply (preserves_simple_loop I root).
Qed.

Lemma preserves_multi_tail (I : state -> Prop) root repo_root :
  (forall s msg, I s -> I (record s [EStderr msg])) ->
  (forall s p, I s ->
     I {| files := add_dirs (files s) p; events := events s ++ [EMkdir p] |}) ->
  (forall s p f, is_prefix_of root p = true -> I s ->
     I {| files := <[p := File]> (files s); events := events s ++ [EWrite p f] |}) ->
  preserves I
    (mkdir_p root ;;
     GenerateTests.sources_loop W U repo_root root (GenerateTests.test_sources repo_root)).
Proof.
  intros H1 H2 H3.
  apply preserves_bind; [by apply preserves_mkdir_p | intros _].
  by apply (preserves_sources_loop I root).
Qed.

End RunFacts.


(** X16.  In state mode a run of [generate_spec_tests.py] removes
    nothing but its output directory, writes only at or below it, never
    links, copies, extracts or renames, and every entry that existed
    outside the output directory is still there afterwards. *)
Theorem state_run_is_confined (W : world) (U : unicode_tables) (repo_root : path) :
  let output_root := repo_root // "test" // "specs" // "generated_state" in
  emits_only (rebuild_event output_root)
    (GenerateSpecTests.main W U GenerateSpecTests.State repo_root) /\
  forall s,
    keeps_outside output_root s
      (GenerateSpecTests.main W U GenerateSpecTests.State repo_root s).2.
Proof.
  intros output_root. split.
  - apply emits_only_of_preserves. intros base.
    destruct (rebuild_event_grows output_root base) as (H1 & H2 & H3 & H4).
    unfold GenerateSpecTests.main. cbv zeta. fold output_root.
    apply preserves_bind; [apply preserves_ret | intros _].
    apply preserves_bind; [apply preserves_exists | intros present].
    apply preserves_bind;
      [destruct present; [by apply preserves_rmtree | apply preserves_ret]|].
    intros _. by apply (preserves_state_tail W U _ output_root).
  - intros s. unfold GenerateSpecTests.main. cbv zeta. fold output_root.
    assert (forall A (c : M A), preserves (keeps_outside output_root s) c ->
                                keeps_outside output_root s (c s).2) as Hrun.
    { intros A c Hc. apply Hc, keeps_outside_refl. }
    apply Hrun.
    apply preserves_bind; [apply preserves_ret | intros _].
    apply preserves_bind; [apply preserves_exists | intros present].
    apply preserves_bind;
      [destruct present;
       [apply preserves_rmtree, keeps_outside_rmtree | apply preserves_ret]|].
    intros _. apply (preserves_state_tail W U _ output_root).
    + apply keeps_outside_warn.
    + apply keeps_outside_mkdir.
    + apply keeps_outside_write.
Qed.

(** X17.  When the output directory of the state mode is a directory, or
    nothing exists at or below it, then after the run every regular file
    at or below it has been written by this run: nothing of an earlier
    run is left. *)
Theorem state_run_rebuilds (W : world) (U : unicode_tables) (repo_root : path)
    (s : state) :
  let output_root := repo_root // "test" // "specs" // "generated_state" in
  (files s !! output_root = Some Dir \/
   forall q, is_prefix_of output_root q = true -> files s !! q = None) ->
  rebuilt_since output_root (events s)
    (GenerateSpecTests.main W U GenerateSpecTests.State repo_root s).2.
Proof.
  intros output_root H.
  change (GenerateSpecTests.main W U GenerateSpecTests.State repo_root s)
    with (FS.bind (if exists_in (files s) output_root
                   then rmtree output_root else ret tt)
            (fun _ =>
               mkdir_p output_root ;; m ← get_files;
               GenerateSpecTests.generate_loop W U output_root
                 (repo_root // "execution-specs" // "tests" // "eest" // "static"
                    // "state_tests") repo_root
                 (GenerateSpecTests.find_json_files m
                    (repo_root // "execution-specs" // "tests" // "eest" // "static"
                       // "state_tests"))) s).
  apply bind_establishes; [by apply rebuilt_after_cleaning|].
  intros _. apply (preserves_state_tail W U _ output_root).
  - apply rebuilt_since_warn.
  - apply rebuilt_since_mkdir.
  - apply rebuilt_since_write.
Qed.

Lemma state_run_rebuilds_witness :
  rebuilt_since Demo.output_root []
    (GenerateSpecTests.main Demo.world ascii_tables GenerateSpecTests.State
       Demo.repo_root DemoRebuild.stale).2.
Proof.
  apply (state_run_rebuilds Demo.world ascii_tables Demo.repo_root DemoRebuild.stale).
  left. vm_compute. reflexivity.
Defined.

(** X18.  A run of [generate_tests.py] removes nothing but its output
    directory, writes only at or below it, extracts only the general-state
    archive into [ethereum-tests], and never links, copies or renames;
    when the [GeneralStateTests] directory is already there, every entry
    that existed outside the output directory is still there afterwards. *)
Theorem multi_source_run_is_confined (W : world) (U : unicode_tables)
    (repo_root : path) :
  let output_root := repo_root // "test" // "specs" // "generated" in
  emits_only (multi_source_event repo_root) (GenerateTests.main W U repo_root) /\
  forall s,
    exists_in (files s) (repo_root // "ethereum-tests" // "GeneralStateTests") = true ->
    keeps_outside output_root s (GenerateTests.main W U repo_root s).2.
Proof.
  intros output_root. split.
  - unfold GenerateTests.main. cbv zeta. fold output_root.
    apply emits_only_bind.
    { unfold GenerateTests.ensure_general_state_tests. solve_emits_fs. }
    intros _. apply emits_only_of_preserves. intros base.
    assert (forall m e, multi_source_event repo_root e ->
              grown_by (multi_source_event repo_root) base m ->
              grown_by (multi_source_event repo_root) base
                {| files := files m; events := events m ++ [e] |}) as _.
    { intros. by apply grown_by_step. }
    apply preserves_bind; [apply preserves_exists | intros present].
    apply preserves_bind.
    { destruct present; [|apply preserves_ret].
      apply preserves_rmtree. intros. by apply grown_by_step. }
    intros _. apply (preserves_multi_tail W U _ output_root);
      intros; by apply grown_by_step.
  - intros s Hs. unfold GenerateTests.main. cbv zeta. fold output_root.
    rewrite bind_run, (general_state_noop W repo_root s Hs).
    assert (forall A (c : M A), preserves (keeps_outside output_root s) c ->
                                keeps_outside output_root s (c s).2) as Hrun.
    { intros A c Hc. apply Hc, keeps_outside_refl. }
    apply Hrun.
    apply preserves_bind; [apply preserves_exists | intros present].
    apply preserves_bind;
      [destruct present;
       [apply preserves_rmtree, keeps_outside_rmtree | apply preserves_ret]|].
    intros _. apply (preserves_multi_tail W U _ output_root).
    + apply keeps_outside_warn.
    + apply keeps_outside_mkdir.
    + apply keeps_outside_write.
Qed.

Lemma multi_source_run_is_confined_witness :
  keeps_outside DemoRebuild.multi_output DemoRebuild.multi_stale
    (GenerateTests.main DemoAcquire.world ascii_tables DemoAcquire.repo_root
       DemoRebuild.multi_stale).2.
Proof.
  apply (multi_source_run_is_confined DemoAcquire.world ascii_tables
           DemoAcquire.repo_root).
  vm_compute. reflexivity.
Defined.

(** X19.  With the [GeneralStateTests] directory in place, and the
    output directory a directory or nothing at or below it, after a run of
    [generate_tests.py] every regular file at or below the output
    directory has been written by this run. *)
Theorem multi_source_run_rebuilds (W : world) (U : unicode_tables)
    (repo_root : path) (s : state) :
  let output_root := repo_root // "test" // "specs" // "generated" in
  exists_in (files s) (repo_root // "ethereum-tests" // "GeneralStateTests") = true ->
  (files s !! output_root = Some Dir \/
   forall q, is_prefix_of output_root q = true -> files s !! q = None) ->
  rebuilt_since output_root (events s) (GenerateTests.main W U repo_root s).2.
Proof.
  intros output_root Hs H.
  unfold GenerateTests.main. cbv zeta. fold output_root.
  rewrite bind_run, (general_state_noop W repo_root s Hs).
  change (rebuilt_since output_root (events s)
            (FS.bind (if exists_in (files s) output_root
                      then rmtree output_root else ret tt)
               (fun _ =>
                  mkdir_p output_root ;;
                  GenerateTests.sources_loop W U repo_root output_root
                    (GenerateTests.test_sources repo_root)) s).2).
  apply bind_establishes; [by apply rebuilt_after_cleaning|].
  intros _. apply (preserves_multi_tail W U _ output_root).
  - apply rebuilt_since_warn.
  - apply rebuilt_since_mkdir.
  - apply rebuilt_since_write.
Qed.

Lemma multi_source_run_rebuilds_witness :
  rebuilt_since DemoRebuild.multi_output []
    (GenerateTests.main DemoAcquire.world ascii_tables DemoAcquire.repo_root
       DemoRebuild.multi_stale).2.
Proof.
  apply (multi_source_run_rebuilds DemoAcquire.world ascii_tables
           DemoAcquire.repo_root DemoRebuild.multi_stale).
  - vm_compute. reflexivity.
  - left. vm_compute. reflexivity.
Defined.

Section MetaRoot.

Lemma filter_none {A} (P : A -> Prop) `{forall x, Decision (P x)} (l : list A) :
  Forall (fun x => ~ P x) l -> filter P l = [].
Proof.
  induction 1 as [|x l Hx _ IH]; [done|].
  rewrite filter_cons, decide_False by done. exact IH.
Qed.

Lemma find_json_files_meta_root (m : gmap path node) (specs_root : path) :
  str ".meta" ∈ specs_root -> GenerateSpecTests.find_json_files m specs_root = [].
Proof.
  intros Hin. unfold GenerateSpecTests.find_json_files. apply filter_none.
  apply Forall_forall. intros f Hf Hn. apply Hn.
  apply rglob_json_spec in Hf as (q & _ & _ & _ & ->).
  apply elem_of_app. by left.
Qed.

Lemma elem_of_joinpath (x : pystr) (a b : path) :
  is_absolute b = false -> x ∈ a -> x ∈ joinpath a b.
Proof.
  intros Hb Ha. unfold joinpath. rewrite Hb. apply elem_of_app. by left.
Qed.

End MetaRoot.

(** X20.  The [.meta] filter looks at every part of a path, also those
    above the fixture root: in a checkout that lies below a directory
    called [.meta] no fixture is selected, and a run of
    [generate_spec_tests.py] writes no file at all. *)
Theorem metadata_root_compiles_nothing (W : world) (U : unicode_tables)
    (ty : GenerateSpecTests.test_type) (repo_root : path) :
  str ".meta" ∈ repo_root ->
  (forall m rel, GenerateSpecTests.find_json_files m (repo_root ++ rel) = []) /\
  emits_only not_write (GenerateSpecTests.main W U ty repo_root).
Proof.
  intros Hin. split.
  - intros m rel. apply find_json_files_meta_root, elem_of_app. by left.
  - unfold GenerateSpecTests.main. cbv zeta.
    apply emits_only_bind.
    { destruct ty; [apply emits_only_ret|].
      unfold GenerateSpecTests.ensure_blockchain_fixtures. solve_emits_fs. }
    intros _. apply emits_only_bind; [apply emits_only_exists | intros present].
    apply emits_only_bind.
    { destruct present; [by apply emits_only_rmtree | apply emits_only_ret]. }
    intros _. apply emits_only_bind; [by apply emits_only_mkdir_p | intros _].
    apply emits_only_bind; [apply emits_only_get_files | intros m].
    rewrite find_json_files_meta_root; [apply emits_only_ret|].
    destruct ty; repeat (apply elem_of_joinpath; [by vm_compute|]); exact Hin.
Qed.

Lemma metadata_root_compiles_nothing_witness :
  emits_only not_write
    (GenerateSpecTests.main Demo.world ascii_tables GenerateSpecTests.State
       DemoRebuild.meta_repo).
Proof.
  apply (metadata_root_compiles_nothing Demo.world ascii_tables
           GenerateSpecTests.State DemoRebuild.meta_repo).
  apply elem_of_by_compute. vm_compute. reflexivity.
Defined.

(** X21.  In blockchain mode a run of [generate_spec_tests.py] removes
    nothing but the fixtures directory and its output directory, writes
    files only at or below the output directory, links or copies only the
    legacy tree onto the fixtures path, extracts only the blockchain archive
    next to it, and renames only the extracted tree onto it. *)
Theorem blockchain_run_is_confined (W : world) (U : unicode_tables)
    (repo_root : path) :
  emits_only (blockchain_event repo_root)
    (GenerateSpecTests.main W U GenerateSpecTests.Blockchain repo_root).
Proof.
  unfold GenerateSpecTests.main. cbv zeta.
  apply emits_only_bind.
  { unfold GenerateSpecTests.ensure_blockchain_fixtures.
    repeat first [emits_prim | emits_step].
    all: try (cbv [blockchain_event]; cbv zeta; cbv iota).
    all: try exact I.
    all: try (split; reflexivity).
    all: try (left; reflexivity). }
  intros _. apply emits_only_of_preserves. intros base.
  set (output_root := repo_root // "test" // "specs" // "generated_blockchain").
  apply preserves_bind; [apply preserves_exists | intros present].
  apply preserves_bind.
  { destruct present; [|apply preserves_ret].
    apply preserves_rmtree. intros. apply grown_by_step; [by right | done]. }
  intros _. apply (preserves_state_tail W U _ output_root);
    intros; by apply grown_by_step.
Qed.
